(** * Signaling relay: presence registry, call hand-shake and rooms

    A shallow embedding of the three server variants of the repository:

    - [Index]      : [src/index.js];
    - [Validated]  : the first document of [src/unnamed/part_000]
                     (same protocol, with a check of [callerInfo]);
    - [Backplane]  : the second document of [src/unnamed/part_000]
                     (array-backed registry behind the Redis adapter).

    Every socket handler becomes a function from the server state and
    the destructured message fields to the new state and the list of
    [emit] calls it performs, in program order.

    The handlers log with template literals, which convert the values
    they interpolate to strings; the conversion of a value taken from
    the message throws a [TypeError] when the value cannot be converted
    ([stringable]).  Nothing catches it.  A handler that throws before
    it has any effect returns [None], where its type allows for it; a
    handler that throws later returns the state it has written and the
    events it has emitted until then, and the [throws] function of its
    variant tells that it ended by throwing. *)

From Stdlib Require Import ZArith String List Bool Lia.
Import ListNotations.
Open Scope string_scope.
Open Scope list_scope.

Set Implicit Arguments.

(** ** JavaScript values *)

(** Primitive values, as they arrive in a JSON-decoded message.  A field
    that is missing from the message destructures to [PUndefined].
    Numbers are kept as integers: JSON carries no [NaN], and the
    comparisons used on identifiers do not tell [-0] from [0].  Identifiers
    (user ids, room ids, target ids) are primitives; object-valued
    identifiers, which a [Map] would compare by reference, are left
    out of the model. *)
Inductive Prim : Type :=
| PUndefined
| PNull
| PBool (b : bool)
| PNum (n : Z)
| PStr (s : string).

#[warnings="-register-all"]
Inductive JsVal : Type :=
| JPrim (p : Prim)
| JObj (fields : list (string * JsVal))
| JArr (items : list JsVal).

Definition JStr (s : string) : JsVal := JPrim (PStr s).
Definition JUndefined : JsVal := JPrim PUndefined.

(** [===] on primitives; with no [NaN] it coincides with the
    SameValueZero comparison of [Map] keys. *)
Definition prim_eqb (a b : Prim) : bool :=
  match a, b with
  | PUndefined, PUndefined => true
  | PNull, PNull => true
  | PBool x, PBool y => Bool.eqb x y
  | PNum x, PNum y => Z.eqb x y
  | PStr x, PStr y => String.eqb x y
  | _, _ => false
  end.

(** ToBoolean. *)
Definition prim_truthy (p : Prim) : bool :=
  match p with
  | PUndefined | PNull => false
  | PBool b => b
  | PNum n => negb (Z.eqb n 0)
  | PStr s => negb (String.eqb s "")
  end.

Definition js_truthy (v : JsVal) : bool :=
  match v with
  | JPrim p => prim_truthy p
  | JObj _ | JArr _ => true
  end.

Fixpoint assoc_field (k : string) (fields : list (string * JsVal)) : option JsVal :=
  match fields with
  | [] => None
  | (k', v) :: rest => if String.eqb k k' then Some v else assoc_field k rest
  end.

(** Property read [v.k] for an own data property [k] ([id], [username]).
    [None] is the [TypeError] raised on [undefined] and [null]; a
    property that is absent reads as [undefined]. *)
Definition js_get (v : JsVal) (k : string) : option JsVal :=
  match v with
  | JPrim PUndefined | JPrim PNull => None
  | JPrim _ | JArr _ => Some JUndefined
  | JObj fields =>
      Some (match assoc_field k fields with Some x => x | None => JUndefined end)
  end.

(** ToString, as a template literal applies it, succeeds on [v].  An
    object decoded from JSON that has an own [toString] entry hides
    [Object.prototype.toString] behind a value that is not callable,
    and [Object.prototype.valueOf] returns the object itself: the
    conversion throws a [TypeError].  An array is converted by joining
    the conversions of its elements. *)
Fixpoint stringable (v : JsVal) : bool :=
  match v with
  | JPrim _ => true
  | JObj fields =>
      match assoc_field "toString" fields with Some _ => false | None => true end
  | JArr items => forallb stringable items
  end.

(** [`${v.k}`] is evaluated without a [TypeError]: [v] is neither
    [undefined] nor [null] and the property converts to a string. *)
Definition field_loggable (v : JsVal) (k : string) : bool :=
  match js_get v k with
  | Some x => stringable x
  | None => false
  end.

(** [`${callerInfo.username} (${callerInfo.id})`] is evaluated without
    a [TypeError]. *)
Definition caller_loggable (callerInfo : JsVal) : bool :=
  field_loggable callerInfo "username" && field_loggable callerInfo "id".

(** Does the object literal [v] have the own key [k]? *)
Definition has_field (v : JsVal) (k : string) : bool :=
  match v with
  | JObj fields => match assoc_field k fields with Some _ => true | None => false end
  | _ => false
  end.

(** ** The JavaScript [Map]: insertion-ordered, one entry per key *)

Section JsMap.
Variables K V : Type.
Variable eqb : K -> K -> bool.

Definition JsMap : Type := list (K * V).

Fixpoint map_get (k : K) (m : JsMap) : option V :=
  match m with
  | [] => None
  | (k', v) :: m' => if eqb k k' then Some v else map_get k m'
  end.

Definition map_has (k : K) (m : JsMap) : bool :=
  match map_get k m with Some _ => true | None => false end.

(** [set] overwrites the value of an existing key in place and
    appends a new key at the end. *)
Fixpoint map_set (k : K) (v : V) (m : JsMap) : JsMap :=
  match m with
  | [] => [(k, v)]
  | (k', v') :: m' =>
      if eqb k k' then (k', v) :: m' else (k', v') :: map_set k v m'
  end.

Definition map_delete (k : K) (m : JsMap) : JsMap :=
  filter (fun e => negb (eqb k (fst e))) m.

Definition map_keys (m : JsMap) : list K := map fst m.
Definition map_values (m : JsMap) : list V := map snd m.
End JsMap.

Arguments map_get {K V} eqb k m.
Arguments map_has {K V} eqb k m.
Arguments map_set {K V} eqb k v m.
Arguments map_delete {K V} eqb k m.
Arguments map_keys {K V} m.
Arguments map_values {K V} m.

(** ** Server state *)

Definition SocketId : Type := string.

(** A row of [users]: [{ userId, username, socketId }]. *)
Record User : Type := mkUser {
  userId : Prim;
  username : JsVal;
  socketId : SocketId
}.

(** A participant object [{ socketId, userInfo }] stored in a room's
    [Set].  The [Set] compares objects by reference, so every object
    literal carries the reference [m_ref] it was allocated at. *)
Record Member : Type := mkMember {
  m_ref : nat;
  m_socketId : SocketId;
  m_userInfo : JsVal
}.

(** The socket.io adapter: the connected sockets, each with the rooms
    it has joined.  A socket joins the room named by its own id when
    it connects, and has left every room before its [disconnect]
    handler runs. *)
Definition Adapter : Type := list (SocketId * list Prim).

Record State : Type := mkState {
  users : JsMap Prim User;            (* userId -> row *)
  socketToUser : JsMap SocketId Prim; (* socketId -> userId *)
  rooms : JsMap Prim (list Member);   (* roomId -> Set of participants *)
  nextRef : nat;                      (* next fresh object reference *)
  sio : Adapter
}.

Definition init : State := mkState [] [] [] 0 [].

Definition set_users (st : State) (u : JsMap Prim User) : State :=
  mkState u (socketToUser st) (rooms st) (nextRef st) (sio st).
Definition set_socketToUser (st : State) (m : JsMap SocketId Prim) : State :=
  mkState (users st) m (rooms st) (nextRef st) (sio st).
Definition set_rooms (st : State) (r : JsMap Prim (list Member)) : State :=
  mkState (users st) (socketToUser st) r (nextRef st) (sio st).
Definition set_nextRef (st : State) (n : nat) : State :=
  mkState (users st) (socketToUser st) (rooms st) n (sio st).
Definition set_sio (st : State) (a : Adapter) : State :=
  mkState (users st) (socketToUser st) (rooms st) (nextRef st) a.

(** ** Emitted events *)

Inductive Target : Type :=
| ToSender                         (* socket.emit *)
| ToAll                            (* io.emit *)
| ToRoom (r : Prim)                (* io.to(r).emit *)
| ToRoomExceptSender (r : Prim).   (* socket.to(r).emit *)

Record Emit : Type := mkEmit {
  e_target : Target;
  e_name : string;
  e_payload : option JsVal           (* [None]: emitted without argument *)
}.

Definition emit (t : Target) (name : string) (payload : JsVal) : Emit :=
  mkEmit t name (Some payload).

(** *** Adapter operations *)

Definition in_room (r : Prim) (e : SocketId * list Prim) : bool :=
  existsb (prim_eqb r) (snd e).

Definition sio_connect (sid : SocketId) (a : Adapter) : Adapter :=
  a ++ [(sid, [PStr sid])].

Definition sio_join (sid : SocketId) (r : Prim) (a : Adapter) : Adapter :=
  map (fun e => if String.eqb (fst e) sid && negb (in_room r e)
                then (fst e, snd e ++ [r]) else e) a.

Definition sio_leave (sid : SocketId) (r : Prim) (a : Adapter) : Adapter :=
  map (fun e => if String.eqb (fst e) sid
                then (fst e, filter (fun r' => negb (prim_eqb r r')) (snd e))
                else e) a.

Definition sio_cleanup (sid : SocketId) (a : Adapter) : Adapter :=
  filter (fun e => negb (String.eqb (fst e) sid)) a.

(** The connections an [emit] of socket [sender] reaches.  [socket.to]
    excludes the sockets of the room named by the sender's id. *)
Definition recipients (a : Adapter) (sender : SocketId) (t : Target) : list SocketId :=
  match t with
  | ToSender => [sender]
  | ToAll => map fst a
  | ToRoom r => map fst (filter (in_room r) a)
  | ToRoomExceptSender r =>
      map fst (filter (fun e => in_room r e && negb (in_room (PStr sender) e)) a)
  end.

(** One delivered event: receiving connection, event name, payload. *)
Definition Delivery : Type := (SocketId * string * option JsVal)%type.

Definition deliver (a : Adapter) (sender : SocketId) (e : Emit) : list Delivery :=
  map (fun c => (c, e_name e, e_payload e)) (recipients a sender (e_target e)).

Definition deliveries (a : Adapter) (sender : SocketId) (out : list Emit) : list Delivery :=
  flat_map (deliver a sender) out.

(** *** Payloads *)

Definition user_js (u : User) : JsVal :=
  JObj [("userId", JPrim (userId u)); ("username", username u);
        ("socketId", JStr (socketId u))].

Definition member_js (m : Member) : JsVal :=
  JObj [("socketId", JStr (m_socketId m)); ("userInfo", m_userInfo m)].

(** [Array.from(users.values())] *)
Definition snapshot (st : State) : list User := map_values (users st).

Definition users_updated (rows : list User) : Emit :=
  emit ToAll "users-updated" (JArr (map user_js rows)).

(** [users.get(userId)] followed by the read of [.socketId], as the
    call-user handlers resolve a target. *)
Definition resolve (st : State) (u : Prim) : option SocketId :=
  option_map socketId (map_get prim_eqb u (users st)).

(** ** The room [Set] *)

Definition set_has (m : Member) (s : list Member) : bool :=
  existsb (fun x => Nat.eqb (m_ref x) (m_ref m)) s.

Definition set_add (m : Member) (s : list Member) : list Member :=
  if set_has m s then s else s ++ [m].

Definition set_delete (m : Member) (s : list Member) : list Member :=
  filter (fun x => negb (Nat.eqb (m_ref x) (m_ref m))) s.

(** [s.forEach(body)] where [body] may delete from [s]: the callback
    runs on the elements in insertion order, skipping those deleted
    before their turn.  [acc] is the set together with what the
    callbacks have emitted so far. *)
Fixpoint set_forEach (body : Member -> list Member * list Emit -> list Member * list Emit)
    (todo : list Member) (acc : list Member * list Emit) : list Member * list Emit :=
  match todo with
  | [] => acc
  | m :: todo' =>
      set_forEach body todo' (if set_has m (fst acc) then body m acc else acc)
  end.

(** The callback of [leave-room]:
    [if (member.socketId === socket.id) roomMembers.delete(member)]. *)
Definition leave_body (sid : SocketId) (m : Member)
    (acc : list Member * list Emit) : list Member * list Emit :=
  if String.eqb (m_socketId m) sid then (set_delete m (fst acc), snd acc) else acc.

Definition user_left (roomId : Prim) (sid : SocketId) : Emit :=
  emit (ToRoomExceptSender roomId) "user-left" (JObj [("socketId", JStr sid)]).

(** The inner callback of [disconnect]: delete the member and notify
    the room, once per matching member. *)
Definition purge_body (sid : SocketId) (roomId : Prim) (m : Member)
    (acc : list Member * list Emit) : list Member * list Emit :=
  if String.eqb (m_socketId m) sid
  then (set_delete m (fst acc), snd acc ++ [user_left roomId sid])
  else acc.

(** [rooms.forEach((roomMembers, roomId) => roomMembers.forEach(...))]
    of the [disconnect] handlers; the room sets are updated in place,
    the [Map] keeps its keys. *)
Fixpoint purge_rooms (sid : SocketId) (rs : JsMap Prim (list Member))
    (out : list Emit) : JsMap Prim (list Member) * list Emit :=
  match rs with
  | [] => ([], out)
  | (roomId, members) :: rs' =>
      let '(members', out1) :=
        set_forEach (purge_body sid roomId) members (members, out) in
      let '(rs'', out2) := purge_rooms sid rs' out1 in
      ((roomId, members') :: rs'', out2)
  end.

(** [rooms.get(roomId)] for a room known to exist. *)
Definition room_of (roomId : Prim) (rs : JsMap Prim (list Member)) : list Member :=
  match map_get prim_eqb roomId rs with Some s => s | None => [] end.

(** Inbound messages, with their fields destructured. *)
Inductive Msg : Type :=
| Connect
| RegisterUser (userId : Prim) (username : JsVal)
| CallUser (targetUserId : Prim) (callerInfo offer : JsVal)
| AnswerCall (callId : Prim) (answer userInfo : JsVal)
| RejectCall (callId : Prim)
| EndCall (targetSocketId : Prim)
| IceCandidate (targetSocketId : Prim) (candidate : JsVal)
| JoinRoom (roomId : Prim) (userInfo : JsVal)
| LeaveRoom (roomId : Prim)
| RoomOffer (roomId targetSocketId : Prim) (offer : JsVal)
| RoomAnswer (targetSocketId : Prim) (answer : JsVal)
| RoomIceCandidate (targetSocketId : Prim) (candidate : JsVal)
| Disconnect.

Definition Result : Type := option (State * list Emit).

(** ** [src/index.js] *)

Module Index.

(* lines 26-39; [socket.userId = userId] is never read back.  The log
   of line 32 converts [username] after the two [Map] writes and before
   the broadcast. *)
Definition register_user (st : State) (sid : SocketId)
    (userId : Prim) (username : JsVal) : State * list Emit :=
  let st1 := set_users st (map_set prim_eqb userId (mkUser userId username sid) (users st)) in
  let st2 := set_socketToUser st1 (map_set String.eqb sid userId (socketToUser st1)) in
  (st2, if stringable username then [users_updated (snapshot st2)] else []).

(* lines 41-77.  The log of line 43 reads and converts
   [callerInfo.username] and [callerInfo.id] before anything else; the
   log of line 51 converts the callee's stored username before the
   first emit. *)
Definition call_user (st : State) (sid : SocketId)
    (targetUserId : Prim) (callerInfo offer : JsVal) : Result :=
  if caller_loggable callerInfo then
    match map_get prim_eqb targetUserId (users st) with
    | Some targetUser =>
        if stringable (username targetUser) then
          Some (st,
            [emit (ToRoom (PStr (socketId targetUser))) "incoming-call"
               (JObj [("caller", callerInfo); ("offer", offer); ("callId", JStr sid)]);
             emit ToSender "call-initiated"
               (JObj [("targetUser",
                       JObj [("username", username targetUser);
                             ("id", JPrim (userId targetUser))])])])
        else None
    | None =>
        Some (st,
          [emit ToSender "call-failed"
             (JObj [("error", JStr "User not found or offline");
                    ("targetUserId", JPrim targetUserId)])])
    end
  else None.

(* lines 79-91; the log of line 81 reads and converts
   [userInfo.username] first *)
Definition answer_call (st : State) (sid : SocketId)
    (callId : Prim) (answer userInfo : JsVal) : Result :=
  if field_loggable userInfo "username" then
    Some (st, [emit (ToRoom callId) "call-answered"
                 (JObj [("answer", answer); ("userInfo", userInfo)])])
  else None.

(* lines 93-101 *)
Definition reject_call (st : State) (sid : SocketId) (callId : Prim) : State * list Emit :=
  (st, [mkEmit (ToRoom callId) "call-rejected" None]).

(* lines 103-111 *)
Definition end_call (st : State) (sid : SocketId) (targetSocketId : Prim) : State * list Emit :=
  if prim_truthy targetSocketId
  then (st, [mkEmit (ToRoom targetSocketId) "call-ended" None])
  else (st, []).

(* lines 113-122 *)
Definition ice_candidate (st : State) (sid : SocketId)
    (targetSocketId : Prim) (candidate : JsVal) : State * list Emit :=
  if prim_truthy targetSocketId
  then (st, [emit (ToRoom targetSocketId) "ice-candidate"
               (JObj [("candidate", candidate); ("fromSocketId", JStr sid)])])
  else (st, []).

(* lines 125-147; the log of line 126 reads and converts
   [userInfo.username] first *)
Definition join_room (st : State) (sid : SocketId)
    (roomId : Prim) (userInfo : JsVal) : Result :=
  match field_loggable userInfo "username" with
  | false => None
  | true =>
      let a := sio_join sid roomId (sio st) in
      let rooms1 :=
        if negb (map_has prim_eqb roomId (rooms st))
        then map_set prim_eqb roomId [] (rooms st) else rooms st in
      let member := mkMember (nextRef st) sid userInfo in
      let rooms2 :=
        map_set prim_eqb roomId (set_add member (room_of roomId rooms1)) rooms1 in
      let roomMembers := room_of roomId rooms2 in
      Some (mkState (users st) (socketToUser st) rooms2 (S (nextRef st)) a,
            [emit (ToRoomExceptSender roomId) "user-joined"
               (JObj [("socketId", JStr sid); ("userInfo", userInfo)]);
             emit ToSender "room-members"
               (JArr (map member_js
                  (filter (fun member => negb (String.eqb (m_socketId member) sid))
                          roomMembers)))])
  end.

(* lines 149-164 *)
Definition leave_room (st : State) (sid : SocketId) (roomId : Prim) : State * list Emit :=
  let st1 := set_sio st (sio_leave sid roomId (sio st)) in
  if map_has prim_eqb roomId (rooms st1) then
    let roomMembers := room_of roomId (rooms st1) in
    let roomMembers' := fst (set_forEach (leave_body sid) roomMembers (roomMembers, [])) in
    (set_rooms st1 (map_set prim_eqb roomId roomMembers' (rooms st1)),
     [user_left roomId sid])
  else (st1, []).

(* lines 166-172 *)
Definition room_offer (st : State) (sid : SocketId)
    (roomId targetSocketId : Prim) (offer : JsVal) : State * list Emit :=
  (st, [emit (ToRoom targetSocketId) "room-offer"
          (JObj [("offer", offer); ("callerSocketId", JStr sid)])]).

(* lines 174-177 *)
Definition room_answer (st : State) (sid : SocketId)
    (targetSocketId : Prim) (answer : JsVal) : State * list Emit :=
  (st, [emit (ToRoom targetSocketId) "room-answer" (JObj [("answer", answer)])]).

(* lines 179-182 *)
Definition room_ice_candidate (st : State) (sid : SocketId)
    (targetSocketId : Prim) (candidate : JsVal) : State * list Emit :=
  (st, [emit (ToRoom targetSocketId) "room-ice-candidate"
          (JObj [("candidate", candidate)])]).

(* lines 184-213.  The log of line 193 converts the username stored in
   the row; the conversions of stored usernames are left out of the
   disconnect handlers: a row holds a username that does not convert
   only after a registration whose own log line has thrown, and with it
   the process has ended. *)
Definition disconnect (st : State) (sid : SocketId) : State * list Emit :=
  let userId :=
    match map_get String.eqb sid (socketToUser st) with
    | Some u => u | None => PUndefined end in
  let disconnectedUser :=
    if prim_truthy userId then map_get prim_eqb userId (users st) else None in
  let users1 :=
    match disconnectedUser with
    | Some _ => map_delete prim_eqb userId (users st)
    | None => users st
    end in
  let s2u := map_delete String.eqb sid (socketToUser st) in
  let '(rooms1, out) := purge_rooms sid (rooms st) [] in
  let st1 := mkState users1 s2u rooms1 (nextRef st) (sio st) in
  (st1, out ++ [users_updated (snapshot st1)]).

(** The handler of the message ends by a [TypeError] of one of its log
    lines. *)
Definition throws (st : State) (sid : SocketId) (msg : Msg) : bool :=
  match msg with
  | RegisterUser _ username => negb (stringable username)
  | CallUser targetUserId callerInfo _ =>
      negb (caller_loggable callerInfo)
      || match map_get prim_eqb targetUserId (users st) with
         | Some targetUser => negb (stringable (username targetUser))
         | None => false
         end
  | AnswerCall _ _ userInfo | JoinRoom _ userInfo =>
      negb (field_loggable userInfo "username")
  | _ => false
  end.

(** One inbound event on socket [sid].  The transport runs its own
    bookkeeping first: a new socket enters the adapter, a closing one
    has left it when [disconnect] fires. *)
Definition step (st : State) (sid : SocketId) (msg : Msg) : Result :=
  match msg with
  | Connect => Some (set_sio st (sio_connect sid (sio st)), [])
  | RegisterUser u n => Some (register_user st sid u n)
  | CallUser t ci o => call_user st sid t ci o
  | AnswerCall c a ui => answer_call st sid c a ui
  | RejectCall c => Some (reject_call st sid c)
  | EndCall t => Some (end_call st sid t)
  | IceCandidate t c => Some (ice_candidate st sid t c)
  | JoinRoom r ui => join_room st sid r ui
  | LeaveRoom r => Some (leave_room st sid r)
  | RoomOffer r t o => Some (room_offer st sid r t o)
  | RoomAnswer t a => Some (room_answer st sid t a)
  | RoomIceCandidate t c => Some (room_ice_candidate st sid t c)
  | Disconnect => Some (disconnect (set_sio st (sio_cleanup sid (sio st))) sid)
  end.

(** The state after a sequence of inbound events.  An event whose
    handler throws before any effect leaves the state as it was; the
    writes of a handler that throws later are kept, although the
    process has ended by then. *)
Definition run (st : State) (evs : list (SocketId * Msg)) : State :=
  fold_left (fun s ev =>
    match step s (fst ev) (snd ev) with
    | Some (s', _) => s'
    | None => s
    end) evs st.

End Index.

(** ** [src/unnamed/part_000], first document: the validated variant *)

Module Validated.

(* lines 25-32; the log of line 30 converts [username] after the two
   [Map] writes and before the broadcast *)
Definition register_user (st : State) (sid : SocketId)
    (userId : Prim) (username : JsVal) : State * list Emit :=
  let st1 := set_users st (map_set prim_eqb userId (mkUser userId username sid) (users st)) in
  let st2 := set_socketToUser st1 (map_set String.eqb sid userId (socketToUser st1)) in
  (st2, if stringable username then [users_updated (snapshot st2)] else []).

(** [!callerInfo.k], evaluated only once [callerInfo] is known to be
    truthy. *)
Definition field_falsy (v : JsVal) (k : string) : bool :=
  match js_get v k with
  | Some x => negb (js_truthy x)
  | None => true
  end.

(** [!callerInfo || !callerInfo.id || !callerInfo.username] (line 37) *)
Definition caller_invalid (callerInfo : JsVal) : bool :=
  negb (js_truthy callerInfo)
  || field_falsy callerInfo "id"
  || field_falsy callerInfo "username".

(* lines 34-68.  The logs of lines 53 and 54 convert
   [callerInfo.username], [callerInfo.id] and the callee's stored
   username once the target is found, before the first emit. *)
Definition call_user (st : State) (sid : SocketId)
    (targetUserId : Prim) (callerInfo offer : JsVal) : State * list Emit :=
  if caller_invalid callerInfo then
    (st, [emit ToSender "call-failed"
            (JObj [("error", JStr "Invalid caller information.")])])
  else
    match map_get prim_eqb targetUserId (users st) with
    | None =>
        (st, [emit ToSender "call-failed"
                (JObj [("error", JStr "Target user not found or offline.");
                       ("targetUserId", JPrim targetUserId)])])
    | Some targetUser =>
        if caller_loggable callerInfo && stringable (username targetUser) then
          (st,
           [emit (ToRoom (PStr (socketId targetUser))) "incoming-call"
              (JObj [("caller", callerInfo); ("offer", offer); ("callId", JStr sid)]);
            emit ToSender "call-initiated"
              (JObj [("targetUser",
                      JObj [("username", username targetUser);
                            ("id", JPrim (userId targetUser))])])])
        else (st, [])
    end.

(** [`${userInfo?.username}`] is evaluated without a [TypeError]: the
    optional read yields [undefined] on a nullish [userInfo], and the
    property converts to a string otherwise. *)
Definition optional_loggable (v : JsVal) (k : string) : bool :=
  match js_get v k with
  | Some x => stringable x
  | None => true
  end.

(* lines 70-73; the log of line 71 converts [userInfo?.username] before
   the emit *)
Definition answer_call (st : State) (sid : SocketId)
    (callId : Prim) (answer userInfo : JsVal) : State * list Emit :=
  if optional_loggable userInfo "username" then
    (st, [emit (ToRoom callId) "call-answered"
            (JObj [("answer", answer); ("userInfo", userInfo)])])
  else (st, []).

(* lines 75-78 *)
Definition reject_call (st : State) (sid : SocketId) (callId : Prim) : State * list Emit :=
  (st, [mkEmit (ToRoom callId) "call-rejected" None]).

(* lines 80-83 *)
Definition end_call (st : State) (sid : SocketId) (targetSocketId : Prim) : State * list Emit :=
  (st, [mkEmit (ToRoom targetSocketId) "call-ended" None]).

(* lines 85-91 *)
Definition ice_candidate (st : State) (sid : SocketId)
    (targetSocketId : Prim) (candidate : JsVal) : State * list Emit :=
  (st, [emit (ToRoom targetSocketId) "ice-candidate"
          (JObj [("candidate", candidate); ("fromSocketId", JStr sid)])]).

(* lines 94-108 *)
Definition join_room (st : State) (sid : SocketId)
    (roomId : Prim) (userInfo : JsVal) : State * list Emit :=
  let a := sio_join sid roomId (sio st) in
  let rooms1 :=
    if negb (map_has prim_eqb roomId (rooms st))
    then map_set prim_eqb roomId [] (rooms st) else rooms st in
  let member := mkMember (nextRef st) sid userInfo in
  let rooms2 :=
    map_set prim_eqb roomId (set_add member (room_of roomId rooms1)) rooms1 in
  let roomMembers :=
    filter (fun m => negb (String.eqb (m_socketId m) sid)) (room_of roomId rooms2) in
  (mkState (users st) (socketToUser st) rooms2 (S (nextRef st)) a,
   [emit (ToRoomExceptSender roomId) "user-joined"
      (JObj [("socketId", JStr sid); ("userInfo", userInfo)]);
    emit ToSender "room-members" (JArr (map member_js roomMembers))]).

(* lines 110-119 *)
Definition leave_room (st : State) (sid : SocketId) (roomId : Prim) : State * list Emit :=
  let st1 := set_sio st (sio_leave sid roomId (sio st)) in
  match map_get prim_eqb roomId (rooms st1) with
  | Some room =>
      let room' := fst (set_forEach (leave_body sid) room (room, [])) in
      (set_rooms st1 (map_set prim_eqb roomId room' (rooms st1)),
       [user_left roomId sid])
  | None => (st1, [])
  end.

(* lines 121-126 *)
Definition room_offer (st : State) (sid : SocketId)
    (roomId targetSocketId : Prim) (offer : JsVal) : State * list Emit :=
  (st, [emit (ToRoom targetSocketId) "room-offer"
          (JObj [("offer", offer); ("callerSocketId", JStr sid)])]).

(* lines 128-130 *)
Definition room_answer (st : State) (sid : SocketId)
    (targetSocketId : Prim) (answer : JsVal) : State * list Emit :=
  (st, [emit (ToRoom targetSocketId) "room-answer" (JObj [("answer", answer)])]).

(* lines 132-134 *)
Definition room_ice_candidate (st : State) (sid : SocketId)
    (targetSocketId : Prim) (candidate : JsVal) : State * list Emit :=
  (st, [emit (ToRoom targetSocketId) "room-ice-candidate"
          (JObj [("candidate", candidate)])]).

(* lines 136-157; [user] is read for the log line of line 144 only,
   which converts the stored username (left out, as in [src/index.js]) *)
Definition disconnect (st : State) (sid : SocketId) : State * list Emit :=
  let userId :=
    match map_get String.eqb sid (socketToUser st) with
    | Some u => u | None => PUndefined end in
  let '(users1, s2u) :=
    if prim_truthy userId
    then (map_delete prim_eqb userId (users st),
          map_delete String.eqb sid (socketToUser st))
    else (users st, socketToUser st) in
  let '(rooms1, out) := purge_rooms sid (rooms st) [] in
  let st1 := mkState users1 s2u rooms1 (nextRef st) (sio st) in
  (st1, out ++ [users_updated (snapshot st1)]).

(** The handler of the message ends by a [TypeError] of one of its log
    lines; [step] then gives the state and the events at that point. *)
Definition throws (st : State) (sid : SocketId) (msg : Msg) : bool :=
  match msg with
  | RegisterUser _ username => negb (stringable username)
  | CallUser targetUserId callerInfo _ =>
      negb (caller_invalid callerInfo)
      && match map_get prim_eqb targetUserId (users st) with
         | Some targetUser =>
             negb (caller_loggable callerInfo && stringable (username targetUser))
         | None => false
         end
  | AnswerCall _ _ userInfo => negb (optional_loggable userInfo "username")
  | _ => false
  end.

Definition step (st : State) (sid : SocketId) (msg : Msg) : State * list Emit :=
  match msg with
  | Connect => (set_sio st (sio_connect sid (sio st)), [])
  | RegisterUser u n => register_user st sid u n
  | CallUser t ci o => call_user st sid t ci o
  | AnswerCall c a ui => answer_call st sid c a ui
  | RejectCall c => reject_call st sid c
  | EndCall t => end_call st sid t
  | IceCandidate t c => ice_candidate st sid t c
  | JoinRoom r ui => join_room st sid r ui
  | LeaveRoom r => leave_room st sid r
  | RoomOffer r t o => room_offer st sid r t o
  | RoomAnswer t a => room_answer st sid t a
  | RoomIceCandidate t c => room_ice_candidate st sid t c
  | Disconnect => disconnect (set_sio st (sio_cleanup sid (sio st))) sid
  end.

(** The state after a sequence of inbound events, with the same
    convention as in [src/index.js] for the handlers that throw. *)
Definition run (st : State) (evs : list (SocketId * Msg)) : State :=
  fold_left (fun s ev => fst (step s (fst ev) (snd ev))) evs st.

End Validated.

(** ** [src/unnamed/part_000], second document: the array variant *)

(** The [id] of a row, under a name the handlers' own [userId]
    parameter does not shadow. *)
Definition row_id (u : User) : Prim := userId u.

Module Backplane.

(** [connectedUsers]: an array of [{ id, username, socketId }]; the
    field [userId] of [User] holds the [id]. *)
Record State : Type := mkState {
  connectedUsers : list User;
  sio : Adapter
}.

Definition init : State := mkState [] [].

Definition user_js (u : User) : JsVal :=
  JObj [("id", JPrim (userId u)); ("username", username u);
        ("socketId", JStr (socketId u))].

Definition users_updated (rows : list User) : Emit :=
  emit ToAll "users-updated" (JArr (map user_js rows)).

(** [Array.prototype.findIndex]; [None] stands for [-1]. *)
Fixpoint findIndex (p : User -> bool) (l : list User) : option nat :=
  match l with
  | [] => None
  | u :: l' =>
      if p u then Some 0
      else match findIndex p l' with Some i => Some (S i) | None => None end
  end.

(** [l[i].socketId = sid] *)
Fixpoint set_socketId_at (i : nat) (sid : SocketId) (l : list User) : list User :=
  match l, i with
  | [], _ => []
  | u :: l', 0 => mkUser (userId u) (username u) sid :: l'
  | u :: l', S j => u :: set_socketId_at j sid l'
  end.

(** [l.splice(i, 1)] *)
Fixpoint splice1 (i : nat) (l : list User) : list User :=
  match l, i with
  | [], _ => []
  | _ :: l', 0 => l'
  | u :: l', S j => u :: splice1 j l'
  end.

(* lines 215-231; the logs of lines 223 and 226 convert [username]
   after the array is written and before the broadcast *)
Definition register_user (st : State) (sid : SocketId)
    (userId : Prim) (username : JsVal) : State * list Emit :=
  let newUser := mkUser userId username sid in
  let connectedUsers' :=
    match findIndex (fun u => prim_eqb (row_id u) userId) (connectedUsers st) with
    | Some existingUserIndex =>
        set_socketId_at existingUserIndex sid (connectedUsers st)
    | None => connectedUsers st ++ [newUser]
    end in
  (mkState connectedUsers' (sio st),
   if stringable username then [users_updated connectedUsers'] else []).

(* lines 233-244; the log of line 239 converts the stored username
   (left out, as in [src/index.js]) *)
Definition disconnect (st : State) (sid : SocketId) : State * list Emit :=
  match findIndex (fun u => String.eqb (socketId u) sid) (connectedUsers st) with
  | Some disconnectedUserIndex =>
      let connectedUsers' := splice1 disconnectedUserIndex (connectedUsers st) in
      (mkState connectedUsers' (sio st), [users_updated connectedUsers'])
  | None => (st, [])
  end.

(* lines 250-253 *)
Definition signal (st : State) (sid : SocketId)
    (target : Prim) (signal : JsVal) : State * list Emit :=
  (st, [emit (ToRoom target) "signal"
          (JObj [("sender", JStr sid); ("signal", signal)])]).

End Backplane.

(** ** Specification-side notions *)

(** One [register] operation: the connection it arrives on and the two
    fields of the message. *)
Record Reg : Type := mkReg {
  r_sid : SocketId;
  r_userId : Prim;
  r_username : JsVal
}.

(** The connection of the most recent registration of [u] in [regs],
    if there is one. *)
Definition last_reg (u : Prim) (regs : list Reg) : option SocketId :=
  fold_left (fun acc r => if prim_eqb u (r_userId r) then Some (r_sid r) else acc)
            regs None.

(** A sequence of [register] operations run through a register-user
    handler. *)
Definition registers (S : Type) (handler : S -> SocketId -> Prim -> JsVal -> S * list Emit)
    (st : S) (regs : list Reg) : S :=
  fold_left (fun s r => fst (handler s (r_sid r) (r_userId r) (r_username r))) regs st.

(** First row of an array with the given id. *)
Definition lookup_row (u : Prim) (l : list User) : option User :=
  find (fun row => prim_eqb (row_id row) u) l.

(** Every row of the registry is stored under its own [userId]. *)
Definition keyed (m : JsMap Prim User) : Prop :=
  Forall (fun e => fst e = userId (snd e)) m.

(** The registry invariant of the [Map]-backed variants. *)
Definition wf (st : State) : Prop :=
  NoDup (map_keys (users st)) /\ keyed (users st) /\
  NoDup (map_keys (socketToUser st)).

(** The connection has no entry in the reverse mapping. *)
Definition unbound (st : State) (sid : SocketId) : Prop :=
  map_get String.eqb sid (socketToUser st) = None.

(** The connection has no participant object in any room. *)
Definition in_no_room (st : State) (sid : SocketId) : Prop :=
  Forall (fun r => Forall (fun m => m_socketId m <> sid) (snd r)) (rooms st).

(** Number of participant objects of [sid] in room [roomId]. *)
Definition membership_count (st : State) (roomId : Prim) (sid : SocketId) : nat :=
  length (filter (fun m => String.eqb (m_socketId m) sid) (room_of roomId (rooms st))).

(** [rows] holds exactly one entry per distinct userId of [regs], each
    with the connection of that userId's most recent registration. *)
Definition one_row_per_user (regs : list Reg) (rows : list User) : Prop :=
  NoDup (map userId rows) /\
  (forall u, In u (map userId rows) <-> In u (map r_userId regs)) /\
  Forall (fun row => last_reg (userId row) regs = Some (socketId row)) rows.

(** No two rows of distinct userIds carry the same connection. *)
Definition one_user_per_connection (rows : list User) : Prop :=
  forall r1 r2, In r1 rows -> In r2 rows ->
    socketId r1 = socketId r2 -> userId r1 = userId r2.


(** The payload has a field holding the connection id [sid]. *)
Definition carries_sender (payload : JsVal) (sid : SocketId) : Prop :=
  exists k, has_field payload k = true /\ js_get payload k = Some (JStr sid).

(** ** Further notions for the properties of the handlers *)

(** The participant objects of a room that belong to other connections
    than [sid], and those that belong to [sid]. *)
Definition others (sid : SocketId) (l : list Member) : list Member :=
  filter (fun m => negb (String.eqb (m_socketId m) sid)) l.

Definition own_entries (sid : SocketId) (l : list Member) : list Member :=
  filter (fun m => String.eqb (m_socketId m) sid) l.

(** The participant objects of a room are distinct objects, allocated
    before reference [n]. *)
Definition room_ok (n : nat) (room : list Member) : Prop :=
  NoDup (map m_ref room) /\ Forall (fun m => m_ref m < n) room.

Definition rooms_wf (st : State) : Prop :=
  Forall (fun e => room_ok (nextRef st) (snd e)) (rooms st).

(** The messages that are relayed between two peers. *)
Definition is_relay (msg : Msg) : bool :=
  match msg with
  | CallUser _ _ _ | AnswerCall _ _ _ | RejectCall _ | EndCall _
  | IceCandidate _ _ | RoomOffer _ _ _ | RoomAnswer _ _
  | RoomIceCandidate _ _ => true
  | _ => false
  end.

(** The userId that the disconnect handlers act on: the one bound to
    the connection in the reverse mapping, if it is truthy. *)
Definition bound_user (st : State) (sid : SocketId) : option Prim :=
  match map_get String.eqb sid (socketToUser st) with
  | Some u => if prim_truthy u then Some u else None
  | None => None
  end.

(** The row of the most recent registration of [u] in [regs]. *)
Definition last_reg_row (u : Prim) (regs : list Reg) : option User :=
  fold_left (fun acc r =>
               if prim_eqb u (r_userId r)
               then Some (mkUser (r_userId r) (r_username r) (r_sid r)) else acc)
            regs None.

(** The username of the earliest registration of [u] in [regs]. *)
Definition first_reg_name (u : Prim) (regs : list Reg) : option JsVal :=
  fold_left (fun acc r =>
               match acc with
               | Some n => Some n
               | None => if prim_eqb u (r_userId r) then Some (r_username r) else None
               end)
            regs None.

(** A list without its first element that satisfies [p]. *)
Fixpoint remove_first (p : User -> bool) (l : list User) : list User :=
  match l with
  | [] => []
  | x :: l' => if p x then l' else x :: remove_first p l'
  end.


(** No handler throws along the run of [evs] from [st]: the process
    is still alive at the end. *)
Fixpoint index_alive (st : State) (evs : list (SocketId * Msg)) : bool :=
  match evs with
  | [] => true
  | ev :: evs' =>
      negb (Index.throws st (fst ev) (snd ev))
      && index_alive (Index.run st [ev]) evs'
  end.

Fixpoint validated_alive (st : State) (evs : list (SocketId * Msg)) : bool :=
  match evs with
  | [] => true
  | ev :: evs' =>
      negb (Validated.throws st (fst ev) (snd ev))
      && validated_alive (Validated.run st [ev]) evs'
  end.

(** Every stored username converts to a string. *)
Definition names_convert (st : State) : Prop :=
  Forall (fun row => stringable (username row) = true) (snapshot st).

(** An emit addressed to one socket or to one named room, as opposed
    to a broadcast. *)
Definition point_to_point (e : Emit) : bool :=
  match e_target e with
  | ToSender | ToRoom _ => true
  | ToAll | ToRoomExceptSender _ => false
  end.


(** ** Facts about the [Map] model *)

Lemma prim_eqb_eq (a b : Prim) : prim_eqb a b = true <-> a = b.
Proof.
  destruct a, b; simpl; split; intro H; try congruence; try reflexivity.
  - apply Bool.eqb_prop in H. congruence.
  - inversion H. apply Bool.eqb_reflx.
  - apply Z.eqb_eq in H. congruence.
  - inversion H. apply Z.eqb_refl.
  - apply String.eqb_eq in H. congruence.
  - inversion H. apply String.eqb_refl.
Qed.

Lemma prim_eqb_refl (a : Prim) : prim_eqb a a = true.
Proof. now apply prim_eqb_eq. Qed.

Lemma prim_eqb_neq (a b : Prim) : prim_eqb a b = false <-> a <> b.
Proof.
  split.
  - intros H E. apply prim_eqb_eq in E. congruence.
  - intro H. destruct (prim_eqb a b) eqn:E; [|reflexivity].
    apply prim_eqb_eq in E. contradiction.
Qed.

Lemma prim_eqb_sym (a b : Prim) : prim_eqb a b = prim_eqb b a.
Proof.
  destruct (prim_eqb b a) eqn:E.
  - apply prim_eqb_eq in E. subst. apply prim_eqb_refl.
  - apply prim_eqb_neq in E. apply prim_eqb_neq. congruence.
Qed.

Section MapFacts.
Variables K V : Type.
Variable eqb : K -> K -> bool.
Hypothesis eqb_eq : forall a b, eqb a b = true <-> a = b.

Lemma eqb_refl' (a : K) : eqb a a = true.
Proof. now apply eqb_eq. Qed.

Lemma eqb_neq' (a b : K) : a <> b -> eqb a b = false.
Proof.
  intro H. destruct (eqb a b) eqn:E; [|reflexivity].
  apply eqb_eq in E. contradiction.
Qed.

Lemma map_get_None (k : K) (m : JsMap K V) :
  map_get eqb k m = None <-> ~ In k (map_keys m).
Proof.
  induction m as [|[k' v] m IH]; simpl.
  - tauto.
  - destruct (eqb k k') eqn:E.
    + apply eqb_eq in E. subst. split; [discriminate | intro H; exfalso; auto].
    + rewrite IH. split.
      * intros H [H1|H1]; [subst; rewrite eqb_refl' in E; discriminate | auto].
      * intros H H1. auto.
Qed.

Lemma map_get_In (k : K) (v : V) (m : JsMap K V) :
  map_get eqb k m = Some v -> In (k, v) m.
Proof.
  induction m as [|[k' v'] m IH]; simpl; [discriminate|].
  destruct (eqb k k') eqn:E.
  - apply eqb_eq in E. subst. intro H. inversion H. now left.
  - intro H. right. auto.
Qed.

Lemma In_map_get (k : K) (v : V) (m : JsMap K V) :
  NoDup (map_keys m) -> In (k, v) m -> map_get eqb k m = Some v.
Proof.
  induction m as [|[k' v'] m IH]; simpl; [tauto|].
  intros ND [H|H].
  - inversion H; subst. now rewrite eqb_refl'.
  - inversion ND; subst. destruct (eqb k k') eqn:E.
    + apply eqb_eq in E. subst. exfalso. apply H2.
      change k' with (fst (k', v)). now apply in_map.
    + auto.
Qed.

Lemma map_set_keys (k : K) (v : V) (m : JsMap K V) :
  map_keys (map_set eqb k v m) =
  if map_has eqb k m then map_keys m else map_keys m ++ [k].
Proof.
  unfold map_has. induction m as [|[k' v'] m IH]; simpl; [reflexivity|].
  destruct (eqb k k') eqn:E; simpl; [reflexivity|].
  rewrite IH. now destruct (map_get eqb k m).
Qed.

Lemma map_set_In_keys (k k' : K) (v : V) (m : JsMap K V) :
  In k' (map_keys (map_set eqb k v m)) <-> k' = k \/ In k' (map_keys m).
Proof.
  rewrite map_set_keys. unfold map_has.
  destruct (map_get eqb k m) eqn:E.
  - split; [auto|]. intros [H|H]; [|assumption]. subst.
    apply map_get_In in E. change k with (fst (k, v0)). now apply in_map.
  - rewrite in_app_iff. simpl. intuition.
Qed.

Lemma map_set_NoDup (k : K) (v : V) (m : JsMap K V) :
  NoDup (map_keys m) -> NoDup (map_keys (map_set eqb k v m)).
Proof.
  intro ND. rewrite map_set_keys. unfold map_has.
  destruct (map_get eqb k m) eqn:E; [assumption|].
  apply map_get_None in E.
  apply NoDup_app; [assumption | repeat constructor; auto | ].
  intros x Hx [Hk|[]]. subst. contradiction.
Qed.

Lemma map_get_set_eq (k : K) (v : V) (m : JsMap K V) :
  map_get eqb k (map_set eqb k v m) = Some v.
Proof.
  induction m as [|[k' v'] m IH]; simpl.
  - now rewrite eqb_refl'.
  - destruct (eqb k k') eqn:E; simpl; rewrite E; auto.
Qed.

Lemma map_get_set_neq (k k' : K) (v : V) (m : JsMap K V) :
  k' <> k -> map_get eqb k' (map_set eqb k v m) = map_get eqb k' m.
Proof.
  intro N. induction m as [|[k0 v0] m IH]; simpl.
  - now rewrite eqb_neq'.
  - destruct (eqb k k0) eqn:E; simpl.
    + apply eqb_eq in E. subst. now rewrite (eqb_neq' N).
    + now rewrite IH.
Qed.

Lemma map_set_In (k k' : K) (v v' : V) (m : JsMap K V) :
  In (k', v') (map_set eqb k v m) -> (k' = k /\ v' = v) \/ In (k', v') m.
Proof.
  induction m as [|[k0 v0] m IH]; simpl.
  - intros [H|[]]. inversion H. auto.
  - destruct (eqb k k0) eqn:E; simpl.
    + apply eqb_eq in E. subst. intros [H|H]; [inversion H|]; auto.
    + intros [H|H]; [auto|]. destruct (IH H); auto.
Qed.

Lemma map_delete_In (k : K) (e : K * V) (m : JsMap K V) :
  In e (map_delete eqb k m) <-> In e m /\ fst e <> k.
Proof.
  unfold map_delete. rewrite filter_In, negb_true_iff. split; intros [H1 H2]; split; auto.
  - intro E. subst. rewrite eqb_refl' in H2. discriminate.
  - apply eqb_neq'. congruence.
Qed.

Lemma map_delete_NoDup (k : K) (m : JsMap K V) :
  NoDup (map_keys m) -> NoDup (map_keys (map_delete eqb k m)).
Proof.
  unfold map_delete, map_keys. induction m as [|[k' v'] m IH]; simpl; [auto|].
  intro ND. inversion ND; subst. destruct (eqb k k'); simpl; [auto|].
  constructor; [|auto]. intro H. apply H1.
  apply in_map_iff in H. destruct H as [e [E H]]. apply filter_In in H.
  apply in_map_iff. exists e. tauto.
Qed.

Lemma map_get_delete_eq (k : K) (m : JsMap K V) :
  map_get eqb k (map_delete eqb k m) = None.
Proof.
  apply map_get_None. intro H. apply in_map_iff in H. destruct H as [e [E H]].
  apply map_delete_In in H. tauto.
Qed.

Lemma map_delete_absent (k : K) (m : JsMap K V) :
  map_get eqb k m = None -> map_delete eqb k m = m.
Proof.
  unfold map_delete. induction m as [|[k' v'] m IH]; simpl; [reflexivity|].
  destruct (eqb k k'); [discriminate|]. simpl. intro H. now rewrite IH.
Qed.

Lemma map_get_delete_neq (k k' : K) (m : JsMap K V) :
  k' <> k -> map_get eqb k' (map_delete eqb k m) = map_get eqb k' m.
Proof.
  intro N. unfold map_delete. induction m as [|[k0 v0] m IH]; simpl; [reflexivity|].
  destruct (eqb k k0) eqn:E; simpl.
  - apply eqb_eq in E. subst. now rewrite (eqb_neq' N).
  - now rewrite IH.
Qed.

End MapFacts.

(** ** The registry after a sequence of registrations *)

Lemma last_reg_snoc (u : Prim) (regs : list Reg) (r : Reg) :
  last_reg u (regs ++ [r]) =
  if prim_eqb u (r_userId r) then Some (r_sid r) else last_reg u regs.
Proof. unfold last_reg. now rewrite fold_left_app. Qed.

Lemma registers_snoc (S : Type) (h : S -> SocketId -> Prim -> JsVal -> S * list Emit)
    (st : S) (regs : list Reg) (r : Reg) :
  registers h st (regs ++ [r]) =
  fst (h (registers h st regs) (r_sid r) (r_userId r) (r_username r)).
Proof. unfold registers. now rewrite fold_left_app. Qed.

Lemma keyed_ids (m : JsMap Prim User) :
  keyed m -> map userId (map_values m) = map_keys m.
Proof.
  unfold keyed, map_values, map_keys. induction 1 as [|e m H _ IH]; simpl.
  - reflexivity.
  - now rewrite IH, H.
Qed.

Lemma keyed_set (u : Prim) (row : User) (m : JsMap Prim User) :
  userId row = u -> keyed m -> keyed (map_set prim_eqb u row m).
Proof.
  unfold keyed. intros E H. apply Forall_forall. intros [k v] Hin.
  apply (map_set_In prim_eqb prim_eqb_eq) in Hin. destruct Hin as [[-> ->]|Hin].
  - simpl. congruence.
  - rewrite Forall_forall in H. now apply H.
Qed.

Lemma keyed_delete (u : Prim) (m : JsMap Prim User) :
  keyed m -> keyed (map_delete prim_eqb u m).
Proof.
  unfold keyed. rewrite !Forall_forall. intros H e Hin.
  apply (map_delete_In prim_eqb prim_eqb_eq) in Hin. apply H. tauto.
Qed.

Section MapRegistry.
Variable handler : State -> SocketId -> Prim -> JsVal -> State * list Emit.
Hypothesis handler_users : forall st sid u n,
  users (fst (handler st sid u n)) = map_set prim_eqb u (mkUser u n sid) (users st).

Lemma registers_users (regs : list Reg) :
  let m := users (registers handler init regs) in
  NoDup (map_keys m) /\ keyed m /\
  (forall u, In u (map_keys m) <-> In u (map r_userId regs)) /\
  (forall u, option_map socketId (map_get prim_eqb u m) = last_reg u regs).
Proof.
  induction regs as [|r regs IH] using rev_ind; simpl.
  - repeat split; try constructor; simpl; tauto.
  - destruct IH as (ND & KY & MEM & LAST).
    rewrite registers_snoc, handler_users. repeat split.
    + now apply map_set_NoDup; [apply prim_eqb_eq|].
    + now apply keyed_set.
    + rewrite (map_set_In_keys prim_eqb prim_eqb_eq), MEM, map_app, in_app_iff.
      simpl. intuition.
    + rewrite (map_set_In_keys prim_eqb prim_eqb_eq), MEM, map_app, in_app_iff.
      simpl. intuition.
    + intro u. rewrite last_reg_snoc. destruct (prim_eqb u (r_userId r)) eqn:E.
      * apply prim_eqb_eq in E. subst.
        now rewrite (map_get_set_eq prim_eqb prim_eqb_eq).
      * apply prim_eqb_neq in E.
        rewrite (map_get_set_neq prim_eqb prim_eqb_eq) by assumption. apply LAST.
Qed.

Lemma registers_snapshot (regs : list Reg) :
  let st := registers handler init regs in
  NoDup (map userId (snapshot st)) /\
  (forall u, In u (map userId (snapshot st)) <-> In u (map r_userId regs)) /\
  Forall (fun row => last_reg (userId row) regs = Some (socketId row)) (snapshot st) /\
  (forall u, resolve st u = last_reg u regs).
Proof.
  destruct (registers_users regs) as (ND & KY & MEM & LAST). simpl.
  unfold snapshot, resolve. rewrite (keyed_ids KY). repeat split; auto.
  - apply MEM.
  - apply MEM.
  - apply Forall_forall. intros row Hin. unfold map_values in Hin.
    apply in_map_iff in Hin. destruct Hin as [[k v] [E Hin]]. simpl in E. subst v.
    assert (K : k = userId row).
    { unfold keyed in KY. rewrite Forall_forall in KY. apply (KY _ Hin). }
    subst k. rewrite <- LAST.
    now rewrite (@In_map_get _ _ prim_eqb prim_eqb_eq _ _ _ ND Hin).
Qed.

End MapRegistry.

(** *** The array variant *)

Lemma findIndex_None (p : User -> bool) (l : list User) :
  Backplane.findIndex p l = None <-> Forall (fun x => p x = false) l.
Proof.
  induction l as [|x l IH]; simpl.
  - split; auto.
  - destruct (p x) eqn:E.
    + split; [discriminate|]. intro H. inversion H. congruence.
    + destruct (Backplane.findIndex p l).
      * split; [discriminate|]. intro H. inversion H; subst.
        destruct IH as [_ IH]. specialize (IH H3). discriminate.
      * split; auto. intros _. constructor; [assumption | now apply IH].
Qed.

Lemma findIndex_Some_In (p : User -> bool) (l : list User) (i : nat) :
  Backplane.findIndex p l = Some i -> exists x, In x l /\ p x = true.
Proof.
  revert i. induction l as [|x l IH]; intro i; simpl; [discriminate|].
  destruct (p x) eqn:E.
  - intros _. exists x. auto.
  - destruct (Backplane.findIndex p l) as [j|]; [|discriminate].
    intros _. destruct (IH j eq_refl) as [y [Hy Py]]. exists y. auto.
Qed.

Lemma set_socketId_at_ids (i : nat) (sid : SocketId) (l : list User) :
  map userId (Backplane.set_socketId_at i sid l) = map userId l.
Proof.
  revert i. induction l as [|x l IH]; intros [|i]; simpl; auto. now rewrite IH.
Qed.

Lemma lookup_row_update (u u' : Prim) (sid : SocketId) (l : list User) (i : nat) :
  Backplane.findIndex (fun x => prim_eqb (row_id x) u) l = Some i ->
  option_map socketId (lookup_row u' (Backplane.set_socketId_at i sid l)) =
  if prim_eqb u' u then Some sid else option_map socketId (lookup_row u' l).
Proof.
  unfold lookup_row, row_id. revert i. induction l as [|x l IH]; intro i; simpl.
  - discriminate.
  - destruct (prim_eqb (userId x) u) eqn:E.
    + intro H. inversion H; subst. simpl. apply prim_eqb_eq in E. subst.
      rewrite (prim_eqb_sym u'). now destruct (prim_eqb (userId x) u').
    + destruct (Backplane.findIndex _ l) as [j|] eqn:F; [|discriminate].
      intro H. inversion H; subst. simpl.
      destruct (prim_eqb (userId x) u') eqn:E'.
      * apply prim_eqb_eq in E'. subst. rewrite E. reflexivity.
      * now apply IH.
Qed.

Lemma lookup_row_push (u' : Prim) (row : User) (l : list User) :
  lookup_row u' (l ++ [row]) =
  match lookup_row u' l with
  | Some r => Some r
  | None => if prim_eqb (userId row) u' then Some row else None
  end.
Proof.
  unfold lookup_row, row_id. induction l as [|x l IH]; simpl.
  - reflexivity.
  - now destruct (prim_eqb (userId x) u').
Qed.

Lemma lookup_row_absent (u : Prim) (l : list User) :
  Forall (fun x => prim_eqb (row_id x) u = false) l -> lookup_row u l = None.
Proof.
  unfold lookup_row. induction 1 as [|x l H _ IH]; simpl; [reflexivity|].
  now rewrite H.
Qed.

Lemma lookup_row_In (row : User) (l : list User) :
  NoDup (map userId l) -> In row l -> lookup_row (userId row) l = Some row.
Proof.
  unfold lookup_row, row_id. induction l as [|x l IH]; simpl; [tauto|].
  intros ND [H|H].
  - subst. now rewrite prim_eqb_refl.
  - inversion ND; subst. destruct (prim_eqb (userId x) (userId row)) eqn:E.
    + apply prim_eqb_eq in E. exfalso. apply H2. rewrite E. now apply in_map.
    + auto.
Qed.

Lemma backplane_registers (regs : list Reg) :
  let l := Backplane.connectedUsers
             (registers Backplane.register_user Backplane.init regs) in
  NoDup (map userId l) /\
  (forall u, In u (map userId l) <-> In u (map r_userId regs)) /\
  (forall u, option_map socketId (lookup_row u l) = last_reg u regs).
Proof.
  induction regs as [|r regs IH] using rev_ind; simpl.
  - repeat split; try constructor; simpl; tauto.
  - destruct IH as (ND & MEM & LAST). rewrite registers_snoc.
    unfold Backplane.register_user at 1. simpl.
    set (l := Backplane.connectedUsers
                (registers Backplane.register_user Backplane.init regs)) in *.
    destruct (Backplane.findIndex _ l) as [i|] eqn:F.
    + assert (Hin : In (r_userId r) (map userId l)).
      { destruct (findIndex_Some_In _ _ F) as [x [Hx Px]].
        apply prim_eqb_eq in Px. unfold row_id in Px. rewrite <- Px.
        now apply in_map. }
      rewrite set_socketId_at_ids. repeat split; auto.
      * intro H. rewrite map_app, in_app_iff. left. now apply MEM.
      * rewrite map_app, in_app_iff. simpl. intros [H|[H|[]]].
        -- now apply MEM.
        -- now subst.
      * intro u. rewrite last_reg_snoc.
        erewrite lookup_row_update by exact F. now rewrite LAST.
    + apply findIndex_None in F. repeat split.
      * rewrite map_app. simpl. apply NoDup_app; [assumption|repeat constructor; auto|].
        intros x Hx [E|[]]. subst x. apply in_map_iff in Hx.
        destruct Hx as [row [E Hrow]]. rewrite Forall_forall in F.
        specialize (F _ Hrow). apply prim_eqb_neq in F. now apply F.
      * rewrite !map_app, !in_app_iff. simpl. rewrite MEM. tauto.
      * rewrite !map_app, !in_app_iff. simpl. rewrite MEM. tauto.
      * intro u. rewrite last_reg_snoc, lookup_row_push. simpl.
        rewrite (prim_eqb_sym (r_userId r) u).
        destruct (prim_eqb u (r_userId r)) eqn:E.
        -- apply prim_eqb_eq in E. subst. now rewrite lookup_row_absent by exact F.
        -- rewrite <- LAST. now destruct (lookup_row u l).
Qed.

(** ** Presence registry *)

(** C2: after any sequence of registrations on the empty registry the
    snapshot has exactly one row per distinct userId, carrying the
    connection of that userId's latest registration, in the two
    [Map]-backed variants and in the array variant; [resolve] returns
    the latest connection, so [register("u1","Alice",c1)] followed by
    [register("u1","Alice2",c2)] resolves ["u1"] to [c2]. *)
Theorem register_last_write_wins (regs : list Reg) :
  (let st := registers Index.register_user init regs in
   one_row_per_user regs (snapshot st) /\
   forall u, resolve st u = last_reg u regs) /\
  (let st := registers Validated.register_user init regs in
   one_row_per_user regs (snapshot st) /\
   forall u, resolve st u = last_reg u regs) /\
  one_row_per_user regs
    (Backplane.connectedUsers
       (registers Backplane.register_user Backplane.init regs)) /\
  resolve (registers Index.register_user init
             [mkReg "c1" (PStr "u1") (JStr "Alice");
              mkReg "c2" (PStr "u1") (JStr "Alice2")]) (PStr "u1") = Some "c2".
Proof.
  assert (M : forall h,
    (forall st sid u n,
        users (fst (h st sid u n)) = map_set prim_eqb u (mkUser u n sid) (users st)) ->
    let st := registers h init regs in
    one_row_per_user regs (snapshot st) /\ forall u, resolve st u = last_reg u regs).
  { intros h Hh. destruct (registers_snapshot h Hh regs) as (A & B & C & D).
    unfold one_row_per_user. simpl. auto. }
  split; [apply M; reflexivity|]. split; [apply M; reflexivity|]. split.
  - destruct (backplane_registers regs) as (ND & MEM & LAST).
    unfold one_row_per_user. repeat split; try apply MEM; auto.
    apply Forall_forall. intros row Hin. rewrite <- LAST.
    now rewrite (@lookup_row_In _ _ ND Hin).
  - reflexivity.
Qed.

(** *** What the relaying handlers do to the state *)

Lemma Index_call_user_Some (st st' : State) (sid : SocketId) (t : Prim)
    (ci o : JsVal) (out : list Emit) :
  Index.call_user st sid t ci o = Some (st', out) -> st' = st.
Proof.
  unfold Index.call_user. destruct (caller_loggable ci); [|discriminate].
  destruct (map_get prim_eqb t (users st)) as [tu|].
  - destruct (stringable (username tu)); [|discriminate].
    intro H. now injection H as <- _.
  - intro H. now injection H as <- _.
Qed.

Lemma Index_answer_call_Some (st st' : State) (sid : SocketId) (c : Prim)
    (a ui : JsVal) (out : list Emit) :
  Index.answer_call st sid c a ui = Some (st', out) -> st' = st.
Proof.
  unfold Index.answer_call. destruct (field_loggable ui "username"); [|discriminate].
  intro H. now injection H as <- _.
Qed.

Lemma Index_join_room_eq (st : State) (sid : SocketId) (roomId : Prim) (ui : JsVal) :
  Index.join_room st sid roomId ui =
  if field_loggable ui "username"
  then Some (Validated.join_room st sid roomId ui) else None.
Proof. unfold Index.join_room. now destruct (field_loggable ui "username"). Qed.

Lemma Validated_call_user_state (st : State) (sid : SocketId) (t : Prim)
    (ci o : JsVal) :
  fst (Validated.call_user st sid t ci o) = st.
Proof.
  unfold Validated.call_user. destruct (Validated.caller_invalid ci); [reflexivity|].
  destruct (map_get prim_eqb t (users st)) as [tu|]; [|reflexivity].
  now destruct (caller_loggable ci && stringable (username tu)).
Qed.

Lemma Validated_answer_call_state (st : State) (sid : SocketId) (c : Prim)
    (a ui : JsVal) :
  fst (Validated.answer_call st sid c a ui) = st.
Proof.
  unfold Validated.answer_call. now destruct (Validated.optional_loggable ui "username").
Qed.

(** *** The registry invariant along every run *)

Lemma wf_init : wf init.
Proof. repeat split; constructor. Qed.

Lemma wf_same (st st' : State) :
  users st' = users st -> socketToUser st' = socketToUser st -> wf st -> wf st'.
Proof. unfold wf. intros -> ->. auto. Qed.

Lemma wf_register (st : State) (sid : SocketId) (u : Prim) (n : JsVal) :
  wf st ->
  wf (mkState (map_set prim_eqb u (mkUser u n sid) (users st))
              (map_set String.eqb sid u (socketToUser st))
              (rooms st) (nextRef st) (sio st)).
Proof.
  intros (ND & KY & ND'). repeat split; simpl.
  - now apply map_set_NoDup; [apply prim_eqb_eq|].
  - now apply keyed_set.
  - now apply map_set_NoDup; [apply String.eqb_eq|].
Qed.

Lemma wf_delete_user (st : State) (u : Prim) :
  wf st -> wf (set_users st (map_delete prim_eqb u (users st))).
Proof.
  intros (ND & KY & ND'). repeat split; simpl; auto.
  - now apply map_delete_NoDup.
  - now apply keyed_delete.
Qed.

Lemma wf_delete_socket (st : State) (sid : SocketId) :
  wf st -> wf (set_socketToUser st (map_delete String.eqb sid (socketToUser st))).
Proof.
  intros (ND & KY & ND'). repeat split; simpl; auto. now apply map_delete_NoDup.
Qed.

Lemma Index_disconnect_wf (st : State) (sid : SocketId) :
  wf st -> wf (fst (Index.disconnect st sid)).
Proof.
  intro W. unfold Index.disconnect.
  destruct (purge_rooms sid (rooms st) []) as [rooms1 out]. simpl.
  set (u := match map_get String.eqb sid (socketToUser st) with
            | Some u => u | None => PUndefined end).
  destruct (if prim_truthy u then map_get prim_eqb u (users st) else None).
  - apply (wf_same (st := set_socketToUser (set_users st
              (map_delete prim_eqb u (users st)))
              (map_delete String.eqb sid (socketToUser st)))); try reflexivity.
    apply (wf_delete_socket sid (wf_delete_user u W)).
  - apply (wf_same (st := set_socketToUser st
              (map_delete String.eqb sid (socketToUser st)))); try reflexivity.
    apply (wf_delete_socket sid W).
Qed.

Lemma Validated_disconnect_wf (st : State) (sid : SocketId) :
  wf st -> wf (fst (Validated.disconnect st sid)).
Proof.
  intro W. unfold Validated.disconnect.
  destruct (purge_rooms sid (rooms st) []) as [rooms1 out].
  set (u := match map_get String.eqb sid (socketToUser st) with
            | Some u => u | None => PUndefined end).
  destruct (prim_truthy u); simpl.
  - apply (wf_same (st := set_socketToUser (set_users st
              (map_delete prim_eqb u (users st)))
              (map_delete String.eqb sid (socketToUser st)))); try reflexivity.
    apply (wf_delete_socket sid (wf_delete_user u W)).
  - now apply (wf_same (st := st)).
Qed.

Lemma some_fst (A B : Type) (x : A * B) (a : A) (b : B) :
  Some x = Some (a, b) -> a = fst x.
Proof. intro H. injection H as ->. reflexivity. Qed.

Lemma Index_step_wf (st st' : State) (sid : SocketId) (msg : Msg) (out : list Emit) :
  wf st -> Index.step st sid msg = Some (st', out) -> wf st'.
Proof.
  intros W H. destruct msg; simpl in H.
  - apply some_fst in H. subst. now apply (wf_same (st := st)).
  - apply some_fst in H. subst. exact (wf_register sid _ _ W).
  - apply Index_call_user_Some in H. now subst.
  - apply Index_answer_call_Some in H. now subst.
  - apply some_fst in H. now subst.
  - apply some_fst in H. subst. unfold Index.end_call.
    now destruct (prim_truthy targetSocketId).
  - apply some_fst in H. subst. unfold Index.ice_candidate.
    now destruct (prim_truthy targetSocketId).
  - rewrite Index_join_room_eq in H.
    destruct (field_loggable userInfo "username");
      try discriminate; apply some_fst in H; subst.
    now apply (wf_same (st := st)).
  - apply some_fst in H. subst. unfold Index.leave_room.
    destruct (map_has prim_eqb roomId _); now apply (wf_same (st := st)).
  - apply some_fst in H. now subst.
  - apply some_fst in H. now subst.
  - apply some_fst in H. now subst.
  - apply some_fst in H. subst. apply Index_disconnect_wf.
    now apply (wf_same (st := st)).
Qed.

Lemma Validated_step_wf (st : State) (sid : SocketId) (msg : Msg) :
  wf st -> wf (fst (Validated.step st sid msg)).
Proof.
  intros W. destruct msg; simpl; try exact W.
  - exact (wf_register sid _ _ W).
  - now rewrite Validated_call_user_state.
  - now rewrite Validated_answer_call_state.
  - unfold Validated.leave_room. simpl.
    destruct (map_get prim_eqb roomId (rooms st)); exact W.
  - apply Validated_disconnect_wf. exact W.
Qed.

Lemma Index_run_wf (st : State) (evs : list (SocketId * Msg)) :
  wf st -> wf (Index.run st evs).
Proof.
  unfold Index.run. revert st. induction evs as [|ev evs IH]; intros st W; simpl.
  - assumption.
  - apply IH. destruct (Index.step st (fst ev) (snd ev)) as [[st' out]|] eqn:E.
    + eapply Index_step_wf; eauto.
    + assumption.
Qed.

Lemma Validated_run_wf (st : State) (evs : list (SocketId * Msg)) :
  wf st -> wf (Validated.run st evs).
Proof.
  unfold Validated.run. revert st. induction evs as [|ev evs IH]; intros st W; simpl.
  - assumption.
  - apply IH. now apply Validated_step_wf.
Qed.

Lemma wf_snapshot (st : State) :
  wf st ->
  NoDup (map userId (snapshot st)) /\ NoDup (map_keys (socketToUser st)).
Proof.
  intros (ND & KY & ND'). unfold snapshot. now rewrite (keyed_ids KY).
Qed.

(** C3, as the code has it: in every reachable state of the two
    [Map]-backed variants the snapshot has at most one row per userId
    and the reverse mapping binds at most one userId to a connection.
    Rows of distinct userIds may still carry one connection. *)
Theorem registry_rows_unique (evs : list (SocketId * Msg)) :
  (let st := Index.run init evs in
   NoDup (map userId (snapshot st)) /\ NoDup (map_keys (socketToUser st))) /\
  (let st := Validated.run init evs in
   NoDup (map userId (snapshot st)) /\ NoDup (map_keys (socketToUser st))).
Proof.
  split; simpl; apply wf_snapshot.
  - apply Index_run_wf, wf_init.
  - apply Validated_run_wf, wf_init.
Qed.

(** C3 fails as stated: a connection that registers under two userIds
    leaves two rows with its connection id. *)
Lemma shared_connection_rows :
  let st := Index.run init
              [("c1", Connect);
               ("c1", RegisterUser (PStr "u1") (JStr "Alice"));
               ("c1", RegisterUser (PStr "u2") (JStr "Alice"))] in
  snapshot st = [mkUser (PStr "u1") (JStr "Alice") "c1";
                 mkUser (PStr "u2") (JStr "Alice") "c1"] /\
  ~ one_user_per_connection (snapshot st).
Proof.
  split; [reflexivity|]. intro H.
  specialize (H (mkUser (PStr "u1") (JStr "Alice") "c1")
                (mkUser (PStr "u2") (JStr "Alice") "c1")).
  simpl in H. assert (E : PStr "u1" = PStr "u2") by (apply H; auto).
  discriminate.
Qed.



(** C10, for a truthy userId: after [register(u, c1)] and
    [register(u, c2)] the reverse mapping still binds [c1] to [u] while
    [u] resolves to [c2]; the disconnect of [c1] then deletes the row
    of [u] and broadcasts a snapshot without [u], although [c2] is
    still bound to [u]. *)
Theorem stale_reverse_mapping (st : State) (u : Prim) (n1 n2 : JsVal)
    (c1 c2 : SocketId) :
  wf st -> prim_truthy u = true -> c1 <> c2 ->
  let st2 := fst (Index.register_user (fst (Index.register_user st c1 u n1)) c2 u n2) in
  map_get String.eqb c1 (socketToUser st2) = Some u /\
  resolve st2 u = Some c2 /\
  exists st3 out,
    Index.step st2 c1 Disconnect = Some (st3, out) /\
    resolve st3 u = None /\
    ~ In u (map userId (snapshot st3)) /\
    In (users_updated (snapshot st3)) out /\
    map_get String.eqb c2 (socketToUser st3) = Some u.
Proof.
  intros W T N. simpl.
  set (us := map_set prim_eqb u (mkUser u n2 c2)
               (map_set prim_eqb u (mkUser u n1 c1) (users st))).
  set (s2u := map_set String.eqb c2 u (map_set String.eqb c1 u (socketToUser st))).
  assert (G1 : map_get String.eqb c1 s2u = Some u).
  { unfold s2u. rewrite (map_get_set_neq String.eqb String.eqb_eq) by assumption.
    apply (map_get_set_eq String.eqb String.eqb_eq). }
  assert (G2 : map_get prim_eqb u us = Some (mkUser u n2 c2))
    by apply (map_get_set_eq prim_eqb prim_eqb_eq).
  assert (KY : keyed us).
  { destruct W as (_ & KY & _). unfold us. now repeat apply keyed_set. }
  split; [exact G1|]. split; [unfold resolve; simpl; fold us; now rewrite G2|].
  unfold Index.disconnect. simpl. fold us s2u. rewrite G1, T, G2.
  destruct (purge_rooms c1 (rooms st) []) as [rooms1 out1].
  eexists. eexists. split; [reflexivity|]. unfold resolve, snapshot. simpl.
  repeat split.
  - now rewrite (map_get_delete_eq prim_eqb prim_eqb_eq).
  - rewrite (keyed_ids (keyed_delete u KY)).
    apply (map_get_None prim_eqb prim_eqb_eq).
    apply (map_get_delete_eq prim_eqb prim_eqb_eq).
  - apply in_or_app. right. now left.
  - rewrite (map_get_delete_neq String.eqb String.eqb_eq) by congruence.
    unfold s2u. apply (map_get_set_eq String.eqb String.eqb_eq).
Qed.

Lemma stale_reverse_mapping_witness :
  let st2 := fst (Index.register_user
                    (fst (Index.register_user init "c1" (PStr "u1") (JStr "Alice")))
                    "c2" (PStr "u1") (JStr "Alice")) in
  map_get String.eqb "c1" (socketToUser st2) = Some (PStr "u1") /\
  resolve st2 (PStr "u1") = Some "c2" /\
  exists st3 out,
    Index.step st2 "c1" Disconnect = Some (st3, out) /\
    resolve st3 (PStr "u1") = None /\
    ~ In (PStr "u1") (map userId (snapshot st3)) /\
    In (users_updated (snapshot st3)) out /\
    map_get String.eqb "c2" (socketToUser st3) = Some (PStr "u1").
Proof.
  apply (@stale_reverse_mapping init (PStr "u1") (JStr "Alice") (JStr "Alice") "c1" "c2").
  - exact wf_init.
  - reflexivity.
  - discriminate.
Defined.

(** C10 fails for a falsy userId: the guard of the disconnect handler
    skips the deletion, and the row bound to [c2] stays. *)
Lemma falsy_userId_row_survives :
  let st2 := Index.run init
               [("c1", Connect); ("c2", Connect);
                ("c1", RegisterUser (PStr "") (JStr "Alice"));
                ("c2", RegisterUser (PStr "") (JStr "Alice"))] in
  map_get String.eqb "c1" (socketToUser st2) = Some (PStr "") /\
  exists st3 out,
    Index.step st2 "c1" Disconnect = Some (st3, out) /\
    resolve st3 (PStr "") = Some "c2" /\
    snapshot st3 = [mkUser (PStr "") (JStr "Alice") "c2"] /\
    out = [users_updated (snapshot st3)].
Proof.
  split; [reflexivity|]. eexists. eexists. split; [reflexivity|]. repeat split.
Qed.

(** ** Call signaling *)

Lemma caller_valid_fields (callerInfo : JsVal) :
  Validated.caller_invalid callerInfo = false ->
  (exists x, js_get callerInfo "username" = Some x) /\
  (exists y, js_get callerInfo "id" = Some y).
Proof.
  unfold Validated.caller_invalid, Validated.field_falsy. intro H.
  apply orb_false_elim in H. destruct H as [H Hn].
  apply orb_false_elim in H. destruct H as [_ Hi].
  destruct (js_get callerInfo "username"), (js_get callerInfo "id");
    try discriminate; eauto.
Qed.




(** The validated variant answers an invalid [callerInfo] without
    looking at the registry. *)
Lemma Validated_invalid_caller (st : State) (sid : SocketId) (target : Prim)
    (callerInfo offer : JsVal) :
  Validated.caller_invalid callerInfo = true ->
  Validated.call_user st sid target callerInfo offer =
  (st, [emit ToSender "call-failed"
          (JObj [("error", JStr "Invalid caller information.")])]).
Proof. unfold Validated.call_user. now intros ->. Qed.

(** C5 on [src/index.js]: a [callerInfo] without username is not
    rejected; the target is resolved and the call is relayed. *)
Theorem index_relays_invalid_caller :
  let st := Index.run init
              [("c1", Connect); ("c2", Connect);
               ("c2", RegisterUser (PStr "u2") (JStr "Bob"))] in
  let callerInfo := JObj [("id", JStr "u1")] in
  Validated.caller_invalid callerInfo = true /\
  exists out,
    Index.call_user st "c1" (PStr "u2") callerInfo (JStr "sdp") = Some (st, out) /\
    map e_name out = ["incoming-call"; "call-initiated"] /\
    map fst (deliveries (sio st) "c1" out) =
      [("c2", "incoming-call"); ("c1", "call-initiated")].
Proof. split; [reflexivity|]. eexists. repeat split. Qed.

(** ** Rooms *)

(** C6 on the code: two [join-room] messages of one connection for one
    room leave two participant objects of that connection in the room,
    in both variants; one [leave-room] then removes both. *)
Theorem join_twice_duplicates :
  let userInfo := JObj [("username", JStr "Alice")] in
  let evs := [("c1", Connect);
              ("c1", JoinRoom (PStr "r") userInfo);
              ("c1", JoinRoom (PStr "r") userInfo)] in
  membership_count (Index.run init evs) (PStr "r") "c1" = 2 /\
  membership_count (Validated.run init evs) (PStr "r") "c1" = 2 /\
  membership_count (Index.run init (evs ++ [("c1", LeaveRoom (PStr "r"))]))
                   (PStr "r") "c1" = 0.
Proof. repeat split. Qed.

(** C7 on the code: [leave-room] from a connection that is not a
    member of an existing room changes no membership, and still sends
    [user-left] to the members of the room. *)
Theorem leave_by_non_member_notifies :
  let userInfo := JObj [("username", JStr "Alice")] in
  let evs := [("c1", Connect); ("c2", Connect);
              ("c1", JoinRoom (PStr "r") userInfo)] in
  membership_count (Index.run init evs) (PStr "r") "c2" = 0 /\
  (exists st' out,
     Index.step (Index.run init evs) "c2" (LeaveRoom (PStr "r")) = Some (st', out) /\
     rooms st' = rooms (Index.run init evs) /\
     deliveries (sio st') "c2" out =
       [("c1", "user-left", Some (JObj [("socketId", JStr "c2")]))]) /\
  (let r := Validated.step (Validated.run init evs) "c2" (LeaveRoom (PStr "r")) in
   rooms (fst r) = rooms (Validated.run init evs) /\
   deliveries (sio (fst r)) "c2" (snd r) =
     [("c1", "user-left", Some (JObj [("socketId", JStr "c2")]))]).
Proof.
  split; [reflexivity|]. split.
  - eexists. eexists. repeat split.
  - repeat split.
Qed.

(** A [leave-room] for a room that was never created emits nothing and
    leaves the rooms as they are. *)
Lemma leave_unknown_room (st : State) (sid : SocketId) (roomId : Prim) :
  map_get prim_eqb roomId (rooms st) = None ->
  Index.leave_room st sid roomId = (set_sio st (sio_leave sid roomId (sio st)), []) /\
  Validated.leave_room st sid roomId = (set_sio st (sio_leave sid roomId (sio st)), []).
Proof.
  intro H. unfold Index.leave_room, Validated.leave_room, map_has. simpl.
  now rewrite H.
Qed.

(** C9 on the code: [room-offer] carries the sender's connection id,
    [room-answer] and [room-ice-candidate] carry the answer or the
    candidate alone. *)
Theorem room_answer_omits_sender :
  let st := Index.run init [("c1", Connect); ("c2", Connect)] in
  let body := JObj [("type", JStr "answer"); ("sdp", JStr "v=0")] in
  (exists p,
     deliveries (sio st) "c1" (snd (Index.room_offer st "c1" (PStr "r") (PStr "c2") body))
       = [("c2", "room-offer", Some p)] /\
     js_get p "offer" = Some body /\ carries_sender p "c1") /\
  (exists p,
     deliveries (sio st) "c1" (snd (Index.room_answer st "c1" (PStr "c2") body))
       = [("c2", "room-answer", Some p)] /\
     js_get p "answer" = Some body /\ ~ carries_sender p "c1") /\
  (exists p,
     deliveries (sio st) "c1" (snd (Index.room_ice_candidate st "c1" (PStr "c2") body))
       = [("c2", "room-ice-candidate", Some p)] /\
     js_get p "candidate" = Some body /\ ~ carries_sender p "c1") /\
  snd (Validated.room_answer st "c1" (PStr "c2") body)
    = snd (Index.room_answer st "c1" (PStr "c2") body) /\
  snd (Validated.room_ice_candidate st "c1" (PStr "c2") body)
    = snd (Index.room_ice_candidate st "c1" (PStr "c2") body).
Proof.
  simpl. split; [|split; [|split; [|split; reflexivity]]].
  - eexists. split; [reflexivity|]. split; [reflexivity|].
    exists "callerSocketId". split; reflexivity.
  - eexists. split; [reflexivity|]. split; [reflexivity|].
    intros [k [F G]]. simpl in F, G.
    destruct (String.eqb k "answer"); discriminate.
  - eexists. split; [reflexivity|]. split; [reflexivity|].
    intros [k [F G]]. simpl in F, G.
    destruct (String.eqb k "candidate"); discriminate.
Qed.

(** *** Disconnection *)

Lemma set_forEach_purge_noop (sid : SocketId) (roomId : Prim)
    (todo : list Member) (acc : list Member * list Emit) :
  Forall (fun m => m_socketId m <> sid) todo ->
  set_forEach (purge_body sid roomId) todo acc = acc.
Proof.
  intro H. revert acc. induction H as [|m todo Hm _ IH]; intro acc; simpl.
  - reflexivity.
  - rewrite IH. unfold purge_body.
    apply String.eqb_neq in Hm. rewrite Hm. now destruct (set_has m (fst acc)).
Qed.

Lemma purge_rooms_noop (sid : SocketId) (rs : JsMap Prim (list Member))
    (out : list Emit) :
  Forall (fun r => Forall (fun m => m_socketId m <> sid) (snd r)) rs ->
  purge_rooms sid rs out = (rs, out).
Proof.
  induction 1 as [|[roomId members] rs Hr _ IH]; simpl.
  - reflexivity.
  - simpl in Hr. rewrite set_forEach_purge_noop by exact Hr. now rewrite IH.
Qed.

(** What a member-deleting [forEach] leaves behind: no participant
    object of the connection, provided the traversal covers the set. *)
Lemma set_forEach_purges (sid : SocketId)
    (body : Member -> list Member * list Emit -> list Member * list Emit) :
  (forall m acc, m_socketId m <> sid -> body m acc = acc) ->
  (forall m acc, m_socketId m = sid -> fst (body m acc) = set_delete m (fst acc)) ->
  forall todo acc,
    (forall x, In x (fst acc) -> m_socketId x = sid -> In x todo) ->
    Forall (fun x => m_socketId x <> sid) (fst (set_forEach body todo acc)).
Proof.
  intros Hne Heq. induction todo as [|m todo IH]; intros acc Hcov; simpl.
  - apply Forall_forall. intros x Hx E. exact (Hcov x Hx E).
  - apply IH. intros x Hx E.
    destruct (String.eqb (m_socketId m) sid) eqn:Em.
    + apply String.eqb_eq in Em. destruct (set_has m (fst acc)) eqn:Hs.
      * rewrite (Heq m acc Em) in Hx. unfold set_delete in Hx.
        apply filter_In in Hx. destruct Hx as [Hx Hr].
        destruct (Hcov x Hx E) as [->|Ht]; [|assumption].
        rewrite Nat.eqb_refl in Hr. discriminate.
      * destruct (Hcov x Hx E) as [->|Ht]; [|assumption].
        exfalso. unfold set_has in Hs.
        assert (T : existsb (fun y => Nat.eqb (m_ref y) (m_ref x)) (fst acc) = true).
        { apply existsb_exists. exists x. split; [assumption|apply Nat.eqb_refl]. }
        congruence.
    + apply String.eqb_neq in Em.
      assert (Hy : In x (fst acc)).
      { destruct (set_has m (fst acc)); [rewrite (Hne m acc Em) in Hx|]; assumption. }
      destruct (Hcov x Hy E) as [->|Ht]; [contradiction|assumption].
Qed.

Lemma purge_rooms_purges (sid : SocketId) (rs : JsMap Prim (list Member))
    (out : list Emit) :
  Forall (fun r => Forall (fun m => m_socketId m <> sid) (snd r))
         (fst (purge_rooms sid rs out)).
Proof.
  revert out. induction rs as [|[roomId members] rs IH]; intro out; simpl.
  - constructor.
  - destruct (set_forEach (purge_body sid roomId) members (members, out))
      as [members1 out1] eqn:E.
    specialize (IH out1). destruct (purge_rooms sid rs out1) as [rs1 out2].
    simpl in *. constructor; [|assumption]. simpl.
    change members1 with (fst (members1, out1)). rewrite <- E.
    apply set_forEach_purges.
    + intros m acc Hm. unfold purge_body. apply String.eqb_neq in Hm. now rewrite Hm.
    + intros m acc Hm. unfold purge_body. apply String.eqb_eq in Hm. now rewrite Hm.
    + auto.
Qed.

(** C8, as the code has it by design: the disconnect of a connection
    that has no entry in the reverse mapping and no participant object
    in any room leaves the registry, the reverse mapping and every room
    as they are, and emits no [user-left]. *)
Theorem disconnect_unknown_connection (st : State) (sid : SocketId) :
  unbound st sid -> in_no_room st sid ->
  (exists st1 out,
     Index.step st sid Disconnect = Some (st1, out) /\
     users st1 = users st /\ socketToUser st1 = socketToUser st /\
     rooms st1 = rooms st /\
     Forall (fun e => e_name e <> "user-left") out) /\
  (let r := Validated.step st sid Disconnect in
   users (fst r) = users st /\ socketToUser (fst r) = socketToUser st /\
   rooms (fst r) = rooms st /\
   Forall (fun e => e_name e <> "user-left") (snd r)).
Proof.
  unfold unbound, in_no_room. intros U R. simpl.
  unfold Index.disconnect, Validated.disconnect. simpl.
  rewrite U, (purge_rooms_noop [] R). simpl. split.
  - eexists. eexists. split; [reflexivity|]. simpl.
    rewrite (map_delete_absent _ _ _ U). repeat split.
    repeat constructor. discriminate.
  - repeat split. repeat constructor. discriminate.
Qed.

Lemma disconnect_unknown_connection_witness :
  let st := Index.run init
              [("c1", Connect); ("c2", Connect);
               ("c2", RegisterUser (PStr "u2") (JStr "Bob"));
               ("c2", JoinRoom (PStr "r") (JObj [("username", JStr "Bob")]))] in
  (exists st1 out,
     Index.step st "c1" Disconnect = Some (st1, out) /\
     users st1 = users st /\ socketToUser st1 = socketToUser st /\
     rooms st1 = rooms st /\
     Forall (fun e => e_name e <> "user-left") out) /\
  (let r := Validated.step st "c1" Disconnect in
   users (fst r) = users st /\ socketToUser (fst r) = socketToUser st /\
   rooms (fst r) = rooms st /\
   Forall (fun e => e_name e <> "user-left") (snd r)).
Proof.
  apply disconnect_unknown_connection.
  - reflexivity.
  - repeat constructor. discriminate.
Defined.

(** C8 fails as stated: a connection that never registered but sits in
    a room is removed from the room on disconnect, and the remaining
    member is told so. *)
Lemma unregistered_member_disconnect :
  let info := JObj [("username", JStr "A")] in
  let st := Index.run init
              [("c1", Connect); ("c2", Connect);
               ("c1", JoinRoom (PStr "r") info);
               ("c2", JoinRoom (PStr "r") info)] in
  unbound st "c1" /\
  exists st1 out,
    Index.step st "c1" Disconnect = Some (st1, out) /\
    membership_count st (PStr "r") "c1" = 1 /\
    membership_count st1 (PStr "r") "c1" = 0 /\
    rooms st1 <> rooms st /\
    In ("c2", "user-left", Some (JObj [("socketId", JStr "c1")]))
       (deliveries (sio st1) "c1" out).
Proof.
  split; [reflexivity|]. eexists. eexists. split; [reflexivity|].
  repeat split; [discriminate | now left].
Qed.

(** The disconnect handlers of the two [Map]-backed variants broadcast
    [users-updated] on every disconnect; the array variant does so only
    when it removed a row. *)
Lemma disconnect_broadcasts (st : State) (sid : SocketId) :
  (exists out, snd (Index.disconnect st sid)
               = out ++ [users_updated (snapshot (fst (Index.disconnect st sid)))]) /\
  (exists out, snd (Validated.disconnect st sid)
               = out ++ [users_updated (snapshot (fst (Validated.disconnect st sid)))]).
Proof.
  unfold Index.disconnect, Validated.disconnect.
  destruct (purge_rooms sid (rooms st) []) as [rooms1 out].
  split.
  - exists out. reflexivity.
  - destruct (prim_truthy _); exists out; reflexivity.
Qed.

Lemma Backplane_disconnect_unknown (st : Backplane.State) (sid : SocketId) :
  Forall (fun u => socketId u <> sid) (Backplane.connectedUsers st) ->
  Backplane.disconnect st sid = (st, []).
Proof.
  intro H. unfold Backplane.disconnect.
  assert (F : Backplane.findIndex (fun u => String.eqb (socketId u) sid)
                (Backplane.connectedUsers st) = None).
  { apply findIndex_None. apply Forall_forall. intros x Hx.
    rewrite Forall_forall in H. apply String.eqb_neq. now apply H. }
  now rewrite F.
Qed.

(** After a disconnect the connection is in no room any more, so a
    second disconnect finds nothing to remove there. *)
Lemma disconnect_leaves_no_membership (st : State) (sid : SocketId) :
  in_no_room (fst (Index.disconnect st sid)) sid /\
  in_no_room (fst (Validated.disconnect st sid)) sid.
Proof.
  unfold in_no_room, Index.disconnect, Validated.disconnect.
  pose proof (purge_rooms_purges sid (rooms st) []) as P.
  destruct (purge_rooms sid (rooms st) []) as [rooms1 out]. simpl in P.
  split; [exact P|]. now destruct (prim_truthy _).
Qed.

(** A second disconnect of the same connection changes neither the
    registry nor the reverse mapping nor any room, and notifies no
    room. *)
Lemma second_disconnect (st : State) (sid : SocketId) :
  (let st1 := fst (Index.disconnect st sid) in
   let r := Index.disconnect st1 sid in
   users (fst r) = users st1 /\ socketToUser (fst r) = socketToUser st1 /\
   rooms (fst r) = rooms st1 /\
   Forall (fun e => e_name e <> "user-left") (snd r)) /\
  (let st1 := fst (Validated.disconnect st sid) in
   let r := Validated.disconnect st1 sid in
   users (fst r) = users st1 /\ socketToUser (fst r) = socketToUser st1 /\
   rooms (fst r) = rooms st1 /\
   Forall (fun e => e_name e <> "user-left") (snd r)).
Proof.
  destruct (disconnect_leaves_no_membership st sid) as [RI RV].
  split; simpl.
  - clear RV. unfold in_no_room in RI.
    assert (U : map_get String.eqb sid (socketToUser (fst (Index.disconnect st sid)))
                = None).
    { unfold Index.disconnect.
      destruct (purge_rooms sid (rooms st) []) as [rooms1 out]. simpl.
      apply (map_get_delete_eq String.eqb String.eqb_eq). }
    set (st1 := fst (Index.disconnect st sid)) in *.
    unfold Index.disconnect. rewrite U, (purge_rooms_noop [] RI). simpl.
    rewrite (map_delete_absent _ _ _ U). repeat split.
    repeat constructor. discriminate.
  - clear RI. unfold in_no_room in RV.
    set (st1 := fst (Validated.disconnect st sid)) in *.
    assert (F : prim_truthy
                  match map_get String.eqb sid (socketToUser st1) with
                  | Some u => u | None => PUndefined end = false).
    { unfold st1, Validated.disconnect.
      destruct (purge_rooms sid (rooms st) []) as [rooms1 out].
      destruct (prim_truthy match map_get String.eqb sid (socketToUser st) with
                            | Some u => u | None => PUndefined end) eqn:T; simpl.
      - now rewrite (map_get_delete_eq String.eqb String.eqb_eq).
      - exact T. }
    unfold Validated.disconnect. rewrite F, (purge_rooms_noop [] RV). simpl.
    repeat split. repeat constructor. discriminate.
Qed.

Lemma no_membership_count (sid : SocketId) (l : list Member) :
  Forall (fun m => m_socketId m <> sid) l ->
  length (filter (fun m => String.eqb (m_socketId m) sid) l) = 0.
Proof.
  induction 1 as [|m l H _ IH]; simpl; [reflexivity|].
  apply String.eqb_neq in H. now rewrite H.
Qed.

Lemma leave_body_purges (sid : SocketId) (room : list Member) :
  Forall (fun m => m_socketId m <> sid)
         (fst (set_forEach (leave_body sid) room (room, []))).
Proof.
  apply set_forEach_purges.
  - intros m acc Hm. unfold leave_body. apply String.eqb_neq in Hm. now rewrite Hm.
  - intros m acc Hm. unfold leave_body. apply String.eqb_eq in Hm. now rewrite Hm.
  - auto.
Qed.

(** One [leave-room] removes every participant object of the
    connection from the room, however many joins put them there. *)
Lemma leave_room_removes_all (st : State) (sid : SocketId) (roomId : Prim) :
  membership_count (fst (Index.leave_room st sid roomId)) roomId sid = 0 /\
  membership_count (fst (Validated.leave_room st sid roomId)) roomId sid = 0.
Proof.
  unfold membership_count, Index.leave_room, Validated.leave_room, map_has, room_of.
  simpl. destruct (map_get prim_eqb roomId (rooms st)) as [room|] eqn:E; simpl.
  - rewrite (map_get_set_eq prim_eqb prim_eqb_eq).
    split; apply no_membership_count, leave_body_purges.
  - rewrite E. now split.
Qed.

(** [leave-room] for a room that exists notifies the room, whether or
    not the connection has a participant object in it. *)
Lemma leave_known_room_notifies (st : State) (sid : SocketId) (roomId : Prim) :
  map_has prim_eqb roomId (rooms st) = true ->
  snd (Index.leave_room st sid roomId) = [user_left roomId sid] /\
  snd (Validated.leave_room st sid roomId) = [user_left roomId sid].
Proof.
  unfold Index.leave_room, Validated.leave_room, map_has. simpl.
  destruct (map_get prim_eqb roomId (rooms st)); [now split|discriminate].
Qed.

(** Every [join-room] adds one participant object for the connection:
    the object literal is fresh, so the room's [Set] never recognises
    an earlier one. *)
Lemma join_room_appends (st : State) (sid : SocketId) (roomId : Prim) (userInfo : JsVal) :
  Forall (fun m => m_ref m < nextRef st) (room_of roomId (rooms st)) ->
  room_of roomId (rooms (fst (Validated.join_room st sid roomId userInfo)))
  = room_of roomId (rooms st) ++ [mkMember (nextRef st) sid userInfo].
Proof.
  intro H. unfold Validated.join_room, room_of, map_has in *. simpl.
  assert (A : forall l, Forall (fun m => m_ref m < nextRef st) l ->
              set_add (mkMember (nextRef st) sid userInfo) l
              = l ++ [mkMember (nextRef st) sid userInfo]).
  { intros l Hl. unfold set_add, set_has.
    assert (X : existsb (fun x => Nat.eqb (m_ref x)
                  (m_ref (mkMember (nextRef st) sid userInfo))) l = false).
    { apply not_true_is_false. intro T. apply existsb_exists in T.
      destruct T as [x [Hx Ex]]. rewrite Forall_forall in Hl.
      specialize (Hl x Hx). apply Nat.eqb_eq in Ex. simpl in Ex. lia. }
    now rewrite X. }
  destruct (map_get prim_eqb roomId (rooms st)) as [room|] eqn:E; simpl.
  - rewrite E, (map_get_set_eq prim_eqb prim_eqb_eq). now apply A.
  - rewrite (map_get_set_eq prim_eqb prim_eqb_eq).
    rewrite (map_get_set_eq prim_eqb prim_eqb_eq). reflexivity.
Qed.

(** ** Further properties of the registry *)

Lemma registers_last_row (h : State -> SocketId -> Prim -> JsVal -> State * list Emit) :
  (forall st sid u n,
     users (fst (h st sid u n)) = map_set prim_eqb u (mkUser u n sid) (users st)) ->
  forall regs u,
    map_get prim_eqb u (users (registers h init regs)) = last_reg_row u regs.
Proof.
  intros Hh regs u. induction regs as [|r regs IH] using rev_ind; [reflexivity|].
  rewrite registers_snoc, Hh. unfold last_reg_row. rewrite fold_left_app. simpl.
  fold (last_reg_row u regs). destruct (prim_eqb u (r_userId r)) eqn:E.
  - apply prim_eqb_eq in E. subst. apply (map_get_set_eq prim_eqb prim_eqb_eq).
  - apply prim_eqb_neq in E.
    now rewrite (map_get_set_neq prim_eqb prim_eqb_eq) by assumption.
Qed.

(** After any sequence of registrations the [Map]-backed registry
    holds, for every userId, the whole row of its most recent
    registration: username and connection are both replaced. *)
Theorem map_registry_last_row (regs : list Reg) (u : Prim) :
  map_get prim_eqb u (users (registers Index.register_user init regs))
    = last_reg_row u regs /\
  map_get prim_eqb u (users (registers Validated.register_user init regs))
    = last_reg_row u regs.
Proof. split; apply registers_last_row; reflexivity. Qed.

Lemma first_reg_name_snoc (u : Prim) (regs : list Reg) (r : Reg) :
  first_reg_name u (regs ++ [r]) =
  match first_reg_name u regs with
  | Some n => Some n
  | None => if prim_eqb u (r_userId r) then Some (r_username r) else None
  end.
Proof. unfold first_reg_name. now rewrite fold_left_app. Qed.

Lemma lookup_row_update_name (u' : Prim) (sid : SocketId) (l : list User) (i : nat) :
  option_map username (lookup_row u' (Backplane.set_socketId_at i sid l)) =
  option_map username (lookup_row u' l).
Proof.
  unfold lookup_row, row_id. revert i.
  induction l as [|x l IH]; intros [|i]; simpl; try reflexivity.
  - now destruct (prim_eqb (userId x) u').
  - destruct (prim_eqb (userId x) u'); [reflexivity|apply IH].
Qed.

Lemma findIndex_lookup_row (u : Prim) (l : list User) (i : nat) :
  Backplane.findIndex (fun x => prim_eqb (row_id x) u) l = Some i ->
  lookup_row u l <> None.
Proof.
  unfold lookup_row. revert i. induction l as [|x l IH]; intro i; simpl; [discriminate|].
  destruct (prim_eqb (row_id x) u); [discriminate|].
  destruct (Backplane.findIndex _ l) as [j|]; [|discriminate].
  intros _. now apply (IH j).
Qed.

(** In the array variant a re-registration only moves the row to the
    new connection: after any sequence of registrations the row of a
    userId has the username of its first registration and the
    connection of its last. *)
Theorem array_registry_keeps_first_name (regs : list Reg) (u : Prim) :
  let l := Backplane.connectedUsers
             (registers Backplane.register_user Backplane.init regs) in
  option_map username (lookup_row u l) = first_reg_name u regs /\
  option_map socketId (lookup_row u l) = last_reg u regs.
Proof.
  simpl. split; [|apply backplane_registers]. revert u.
  induction regs as [|r regs IH] using rev_ind; intro u; [reflexivity|].
  rewrite registers_snoc, first_reg_name_snoc.
  unfold Backplane.register_user at 1. simpl.
  set (l := Backplane.connectedUsers
              (registers Backplane.register_user Backplane.init regs)) in *.
  destruct (Backplane.findIndex _ l) as [i|] eqn:F.
  - rewrite lookup_row_update_name, IH.
    destruct (first_reg_name u regs) eqn:N; [reflexivity|].
    destruct (prim_eqb u (r_userId r)) eqn:E; [|reflexivity].
    apply prim_eqb_eq in E. subst u. apply findIndex_lookup_row in F.
    rewrite <- IH in N. destruct (lookup_row (r_userId r) l); [discriminate|].
    now contradiction F.
  - rewrite lookup_row_push, <- IH. simpl.
    destruct (lookup_row u l); [reflexivity|]. simpl.
    rewrite (prim_eqb_sym (r_userId r) u).
    now destruct (prim_eqb u (r_userId r)).
Qed.

(** A registration touches one userId and one connection: every other
    userId resolves as before and every other connection keeps its
    reverse mapping; the rooms are not touched. *)
Theorem register_frame (st : State) (sid c : SocketId) (u v : Prim) (n : JsVal) :
  v <> u -> c <> sid ->
  (let st1 := fst (Index.register_user st sid u n) in
   resolve st1 v = resolve st v /\
   map_get String.eqb c (socketToUser st1) = map_get String.eqb c (socketToUser st) /\
   rooms st1 = rooms st) /\
  (let st1 := fst (Validated.register_user st sid u n) in
   resolve st1 v = resolve st v /\
   map_get String.eqb c (socketToUser st1) = map_get String.eqb c (socketToUser st) /\
   rooms st1 = rooms st).
Proof.
  intros Hv Hc. unfold resolve. simpl.
  rewrite (map_get_set_neq prim_eqb prim_eqb_eq) by assumption.
  rewrite (map_get_set_neq String.eqb String.eqb_eq) by assumption.
  repeat split.
Qed.

Lemma register_frame_witness :
  (let st1 := fst (Index.register_user init "c1" (PStr "u1") (JStr "Alice")) in
   resolve st1 (PStr "u2") = resolve init (PStr "u2") /\
   map_get String.eqb "c2" (socketToUser st1)
     = map_get String.eqb "c2" (socketToUser init) /\
   rooms st1 = rooms init) /\
  (let st1 := fst (Validated.register_user init "c1" (PStr "u1") (JStr "Alice")) in
   resolve st1 (PStr "u2") = resolve init (PStr "u2") /\
   map_get String.eqb "c2" (socketToUser st1)
     = map_get String.eqb "c2" (socketToUser init) /\
   rooms st1 = rooms init).
Proof.
  apply (@register_frame init "c1" "c2" (PStr "u1") (PStr "u2") (JStr "Alice"));
    discriminate.
Defined.

(** In every reachable state the snapshot keeps its order under a
    registration: a userId that is already registered keeps its place,
    a new userId goes to the end. *)
Theorem snapshot_order (evs : list (SocketId * Msg)) (sid : SocketId)
    (u : Prim) (n : JsVal) :
  (let st := Index.run init evs in
   map userId (snapshot (fst (Index.register_user st sid u n))) =
   if map_has prim_eqb u (users st)
   then map userId (snapshot st) else map userId (snapshot st) ++ [u]) /\
  (let st := Validated.run init evs in
   map userId (snapshot (fst (Validated.register_user st sid u n))) =
   if map_has prim_eqb u (users st)
   then map userId (snapshot st) else map userId (snapshot st) ++ [u]).
Proof.
  assert (G : forall st, wf st ->
    map userId (map_values (map_set prim_eqb u (mkUser u n sid) (users st))) =
    if map_has prim_eqb u (users st)
    then map userId (map_values (users st))
    else map userId (map_values (users st)) ++ [u]).
  { intros st (_ & KY & _).
    rewrite (keyed_ids KY), (keyed_ids (@keyed_set u (mkUser u n sid) _ eq_refl KY)).
    apply map_set_keys. }
  split; simpl; apply G.
  - apply Index_run_wf, wf_init.
  - apply Validated_run_wf, wf_init.
Qed.

Lemma disconnect_resolve_eq (st : State) (sid : SocketId) (v : Prim) :
  resolve (fst (Index.disconnect st sid)) v =
    match bound_user st sid with
    | Some u => if prim_eqb u v then None else resolve st v
    | None => resolve st v
    end /\
  resolve (fst (Validated.disconnect st sid)) v =
    match bound_user st sid with
    | Some u => if prim_eqb u v then None else resolve st v
    | None => resolve st v
    end.
Proof.
  unfold Index.disconnect, Validated.disconnect, bound_user, resolve.
  destruct (purge_rooms sid (rooms st) []) as [rooms1 out].
  destruct (map_get String.eqb sid (socketToUser st)) as [u|]; simpl; [|now split].
  destruct (prim_truthy u) eqn:T; simpl; [|now split].
  assert (D : option_map socketId (map_get prim_eqb v (map_delete prim_eqb u (users st)))
              = if prim_eqb u v then None
                else option_map socketId (map_get prim_eqb v (users st))).
  { destruct (prim_eqb u v) eqn:E.
    - apply prim_eqb_eq in E. subst.
      now rewrite (map_get_delete_eq prim_eqb prim_eqb_eq).
    - apply prim_eqb_neq in E.
      rewrite (map_get_delete_neq prim_eqb prim_eqb_eq) by congruence. reflexivity. }
  split; [|exact D].
  destruct (map_get prim_eqb u (users st)) eqn:G; simpl; [exact D|].
  destruct (prim_eqb u v) eqn:E; [|reflexivity].
  apply prim_eqb_eq in E. subst. now rewrite G.
Qed.

(** What a disconnect does to the registry: the userId bound to the
    connection, if it is truthy, stops resolving; every other userId
    resolves as before. *)
Theorem disconnect_resolve (st : State) (sid : SocketId) (v : Prim) :
  resolve (fst (Index.disconnect st sid)) v =
    match bound_user st sid with
    | Some u => if prim_eqb u v then None else resolve st v
    | None => resolve st v
    end /\
  resolve (fst (Validated.disconnect st sid)) v =
    match bound_user st sid with
    | Some u => if prim_eqb u v then None else resolve st v
    | None => resolve st v
    end.
Proof. apply disconnect_resolve_eq. Qed.

(** A row outlives its connection when the connection registered a
    second userId: after [register(u1)] and [register(u2)] on one
    connection, the disconnect of that connection leaves [u1]
    resolving to it. *)
Theorem row_outlives_connection (st : State) (c : SocketId) (u1 u2 : Prim)
    (n1 n2 : JsVal) :
  u1 <> u2 ->
  (let st2 := fst (Index.register_user (fst (Index.register_user st c u1 n1)) c u2 n2) in
   exists st3 out,
     Index.step st2 c Disconnect = Some (st3, out) /\ resolve st3 u1 = Some c) /\
  (let st2 := fst (Validated.register_user
                     (fst (Validated.register_user st c u1 n1)) c u2 n2) in
   resolve (fst (Validated.step st2 c Disconnect)) u1 = Some c).
Proof.
  intro N.
  assert (R : forall st2, resolve st2 u1 = Some c ->
                bound_user st2 c = None \/ bound_user st2 c = Some u2 ->
                resolve (fst (Index.disconnect st2 c)) u1 = Some c /\
                resolve (fst (Validated.disconnect st2 c)) u1 = Some c).
  { intros st2 H B. destruct (disconnect_resolve_eq st2 c u1) as [A1 A2].
    rewrite A1, A2. destruct B as [-> | ->]; [now split|].
    assert (E : prim_eqb u2 u1 = false) by (apply prim_eqb_neq; congruence).
    now rewrite E. }
  assert (G : forall m m', resolve (mkState
     (map_set prim_eqb u2 (mkUser u2 n2 c) (map_set prim_eqb u1 (mkUser u1 n1 c) (users st)))
     (map_set String.eqb c u2 (map_set String.eqb c u1 (socketToUser st))) (rooms st) m m') u1
     = Some c).
  { intros. unfold resolve. simpl.
    rewrite (map_get_set_neq prim_eqb prim_eqb_eq) by assumption.
    now rewrite (map_get_set_eq prim_eqb prim_eqb_eq). }
  assert (B : forall m m', let s := mkState
     (map_set prim_eqb u2 (mkUser u2 n2 c) (map_set prim_eqb u1 (mkUser u1 n1 c) (users st)))
     (map_set String.eqb c u2 (map_set String.eqb c u1 (socketToUser st))) (rooms st) m m' in
     bound_user s c = None \/ bound_user s c = Some u2).
  { intros. unfold bound_user. simpl.
    rewrite (map_get_set_eq String.eqb String.eqb_eq).
    destruct (prim_truthy u2); auto. }
  split; simpl.
  - eexists. eexists. split; [apply f_equal, surjective_pairing|].
    apply (R _ (G _ _) (B _ _)).
  - apply (R _ (G _ _) (B _ _)).
Qed.

Lemma row_outlives_connection_witness :
  (let st2 := fst (Index.register_user
                     (fst (Index.register_user init "c1" (PStr "u1") (JStr "A")))
                     "c1" (PStr "u2") (JStr "B")) in
   exists st3 out,
     Index.step st2 "c1" Disconnect = Some (st3, out) /\
     resolve st3 (PStr "u1") = Some "c1") /\
  (let st2 := fst (Validated.register_user
                     (fst (Validated.register_user init "c1" (PStr "u1") (JStr "A")))
                     "c1" (PStr "u2") (JStr "B")) in
   resolve (fst (Validated.step st2 "c1" Disconnect)) (PStr "u1") = Some "c1").
Proof.
  apply (@row_outlives_connection init "c1" (PStr "u1") (PStr "u2") (JStr "A") (JStr "B")).
  discriminate.
Defined.

(** *** The array variant on disconnect *)

Lemma splice1_findIndex (p : User -> bool) (l : list User) :
  match Backplane.findIndex p l with
  | Some i => Backplane.splice1 i l = remove_first p l /\ existsb p l = true
  | None => remove_first p l = l /\ existsb p l = false
  end.
Proof.
  induction l as [|x l IH]; simpl; [auto|].
  destruct (p x) eqn:E; simpl; [auto|].
  destruct (Backplane.findIndex p l) as [i|]; destruct IH as [IH1 IH2];
    simpl; split; congruence.
Qed.

Lemma remove_first_keeps_others (p : User -> bool) (l : list User) :
  filter (fun x => negb (p x)) (remove_first p l) = filter (fun x => negb (p x)) l.
Proof.
  induction l as [|x l IH]; simpl; [reflexivity|].
  destruct (p x) eqn:E; simpl; [reflexivity|]. now rewrite E, IH.
Qed.

(** A disconnect in the array variant removes the first row of the
    connection and no other: the rows of all other connections stay,
    in order; the snapshot is broadcast exactly when a row was
    removed, and nothing is emitted otherwise. *)
Theorem array_disconnect_removes_first (st : Backplane.State) (sid : SocketId) :
  let own := fun u => String.eqb (socketId u) sid in
  let r := Backplane.disconnect st sid in
  Backplane.connectedUsers (fst r) = remove_first own (Backplane.connectedUsers st) /\
  filter (fun u => negb (own u)) (Backplane.connectedUsers (fst r))
    = filter (fun u => negb (own u)) (Backplane.connectedUsers st) /\
  snd r = if existsb own (Backplane.connectedUsers st)
          then [Backplane.users_updated (Backplane.connectedUsers (fst r))]
          else [].
Proof.
  simpl. unfold Backplane.disconnect.
  pose proof (splice1_findIndex (fun u => String.eqb (socketId u) sid)
                (Backplane.connectedUsers st)) as S.
  destruct (Backplane.findIndex _ (Backplane.connectedUsers st)) as [i|];
    destruct S as [S1 S2]; simpl; rewrite S2.
  - rewrite S1. repeat split. apply remove_first_keeps_others.
  - now rewrite S1.
Qed.

(** ** Calls after registrations *)

(** A call reaches the connection of the callee's latest registration:
    after any sequence of registrations, a call to a registered userId
    from a caller whose id and username are truthy and convert to
    strings, to a callee whose stored username converts to a string,
    is relayed as [incoming-call] to the room of that row's
    connection, with the caller's connection as [callId], and
    confirmed to the caller with the row's username and id; no log
    line throws. *)
Theorem call_reaches_latest_registration (regs : list Reg) (sid : SocketId)
    (target : Prim) (callerInfo offer : JsVal) (row : User) :
  Validated.caller_invalid callerInfo = false ->
  caller_loggable callerInfo = true ->
  last_reg_row target regs = Some row ->
  stringable (username row) = true ->
  let out :=
    [emit (ToRoom (PStr (socketId row))) "incoming-call"
       (JObj [("caller", callerInfo); ("offer", offer); ("callId", JStr sid)]);
     emit ToSender "call-initiated"
       (JObj [("targetUser",
               JObj [("username", username row); ("id", JPrim (userId row))])])] in
  (let st := registers Index.register_user init regs in
   Index.call_user st sid target callerInfo offer = Some (st, out) /\
   Index.throws st sid (CallUser target callerInfo offer) = false) /\
  (let st := registers Validated.register_user init regs in
   Validated.call_user st sid target callerInfo offer = (st, out) /\
   Validated.throws st sid (CallUser target callerInfo offer) = false).
Proof.
  intros V C L S. simpl.
  unfold Index.call_user, Validated.call_user. rewrite C, V.
  rewrite !registers_last_row by reflexivity. rewrite L, S. now repeat split.
Qed.

Lemma call_reaches_latest_registration_witness :
  let regs := [mkReg "c1" (PStr "u1") (JStr "Alice");
               mkReg "c2" (PStr "u1") (JStr "Alice2")] in
  let callerInfo := JObj [("id", JStr "u9"); ("username", JStr "Zed")] in
  let out :=
    [emit (ToRoom (PStr "c2")) "incoming-call"
       (JObj [("caller", callerInfo); ("offer", JStr "sdp"); ("callId", JStr "c9")]);
     emit ToSender "call-initiated"
       (JObj [("targetUser",
               JObj [("username", JStr "Alice2"); ("id", JPrim (PStr "u1"))])])] in
  (let st := registers Index.register_user init regs in
   Index.call_user st "c9" (PStr "u1") callerInfo (JStr "sdp") = Some (st, out) /\
   Index.throws st "c9" (CallUser (PStr "u1") callerInfo (JStr "sdp")) = false) /\
  (let st := registers Validated.register_user init regs in
   Validated.call_user st "c9" (PStr "u1") callerInfo (JStr "sdp") = (st, out) /\
   Validated.throws st "c9" (CallUser (PStr "u1") callerInfo (JStr "sdp")) = false).
Proof.
  apply (@call_reaches_latest_registration
           [mkReg "c1" (PStr "u1") (JStr "Alice"); mkReg "c2" (PStr "u1") (JStr "Alice2")]
           "c9" (PStr "u1") (JObj [("id", JStr "u9"); ("username", JStr "Zed")])
           (JStr "sdp") (mkUser (PStr "u1") (JStr "Alice2") "c2")); reflexivity.
Defined.

(** ** Further properties of the rooms *)

Lemma filter_all (A : Type) (f : A -> bool) (l : list A) :
  Forall (fun x => f x = true) l -> filter f l = l.
Proof. induction 1 as [|x l H _ IH]; simpl; [reflexivity|]. now rewrite H, IH. Qed.

Lemma others_distinct (sid : SocketId) (room : list Member) :
  NoDup (map m_ref room) -> NoDup (map m_ref (others sid room)).
Proof.
  unfold others. induction room as [|m room IH]; simpl; intro ND; [constructor|].
  apply NoDup_cons_iff in ND. destruct ND as [Hm ND].
  destruct (String.eqb (m_socketId m) sid); simpl; [now apply IH|].
  apply NoDup_cons; [|now apply IH].
  intro H. apply Hm. apply in_map_iff in H. destruct H as [y [E Hy]].
  apply filter_In in Hy. rewrite <- E. apply in_map. tauto.
Qed.

Lemma set_has_In (m : Member) (s : list Member) : In m s -> set_has m s = true.
Proof.
  intro H. unfold set_has. apply existsb_exists. exists m.
  split; [assumption|apply Nat.eqb_refl].
Qed.

Lemma set_delete_unique (m : Member) (pre post : list Member) :
  NoDup (map m_ref (pre ++ m :: post)) ->
  set_delete m (pre ++ m :: post) = pre ++ post.
Proof.
  intro ND. unfold set_delete. rewrite filter_app. simpl.
  rewrite Nat.eqb_refl. simpl.
  rewrite map_app in ND. simpl in ND. apply NoDup_remove in ND.
  destruct ND as [_ Hn]. rewrite in_app_iff in Hn.
  rewrite !filter_all; [reflexivity| |]; apply Forall_forall; intros x Hx;
    apply negb_true_iff, Nat.eqb_neq; intro E; apply Hn;
    [right|left]; rewrite <- E; now apply in_map.
Qed.

(** A member-deleting [forEach] over a set of distinct objects keeps
    exactly the objects of the other connections, in order. *)
Lemma set_forEach_exact (sid : SocketId)
    (body : Member -> list Member * list Emit -> list Member * list Emit) :
  (forall m acc, m_socketId m <> sid -> body m acc = acc) ->
  (forall m acc, m_socketId m = sid -> fst (body m acc) = set_delete m (fst acc)) ->
  forall todo pre acc,
    fst acc = pre ++ todo -> NoDup (map m_ref (pre ++ todo)) ->
    fst (set_forEach body todo acc) = pre ++ others sid todo.
Proof.
  intros Hne Heq. induction todo as [|m todo IH]; intros pre acc E ND; simpl.
  - assumption.
  - rewrite (set_has_In m (fst acc)) by (rewrite E; apply in_elt).
    destruct (String.eqb (m_socketId m) sid) eqn:Em; simpl.
    + apply String.eqb_eq in Em. apply IH.
      * rewrite (Heq m acc Em), E. now apply set_delete_unique.
      * rewrite map_app in *. simpl in ND. now apply NoDup_remove_1 in ND.
    + apply String.eqb_neq in Em. rewrite (Hne m acc Em).
      replace (pre ++ m :: others sid todo) with ((pre ++ [m]) ++ others sid todo)
        by (rewrite <- app_assoc; reflexivity).
      apply IH; rewrite <- app_assoc; assumption.
Qed.

Lemma purge_emits (sid : SocketId) (roomId : Prim) :
  forall todo pre acc,
    fst acc = pre ++ todo -> NoDup (map m_ref (pre ++ todo)) ->
    snd (set_forEach (purge_body sid roomId) todo acc) =
    snd acc ++ repeat (user_left roomId sid) (length (own_entries sid todo)).
Proof.
  induction todo as [|m todo IH]; intros pre acc E ND; simpl.
  - now rewrite app_nil_r.
  - rewrite (set_has_In m (fst acc)) by (rewrite E; apply in_elt).
    unfold purge_body at 2. destruct (String.eqb (m_socketId m) sid) eqn:Em; simpl.
    + rewrite (IH pre); simpl.
      * now rewrite <- app_assoc.
      * rewrite E. now apply set_delete_unique.
      * rewrite map_app in *. simpl in ND. now apply NoDup_remove_1 in ND.
    + apply (IH (pre ++ [m])); rewrite <- app_assoc; assumption.
Qed.

Lemma purge_body_spec (sid : SocketId) (roomId : Prim) :
  (forall m acc, m_socketId m <> sid -> purge_body sid roomId m acc = acc) /\
  (forall m acc, m_socketId m = sid ->
     fst (purge_body sid roomId m acc) = set_delete m (fst acc)).
Proof.
  split; intros m acc H; unfold purge_body.
  - apply String.eqb_neq in H. now rewrite H.
  - apply String.eqb_eq in H. now rewrite H.
Qed.

Lemma leave_body_spec (sid : SocketId) :
  (forall m acc, m_socketId m <> sid -> leave_body sid m acc = acc) /\
  (forall m acc, m_socketId m = sid ->
     fst (leave_body sid m acc) = set_delete m (fst acc)).
Proof.
  split; intros m acc H; unfold leave_body.
  - apply String.eqb_neq in H. now rewrite H.
  - apply String.eqb_eq in H. now rewrite H.
Qed.

Lemma purge_rooms_exact (sid : SocketId) (rs : JsMap Prim (list Member))
    (out : list Emit) :
  Forall (fun e => NoDup (map m_ref (snd e))) rs ->
  purge_rooms sid rs out =
  (map (fun e => (fst e, others sid (snd e))) rs,
   out ++ flat_map (fun e => repeat (user_left (fst e) sid)
                                    (length (own_entries sid (snd e)))) rs).
Proof.
  intro H. revert out. induction H as [|[roomId members] rs Hr _ IH]; intro out; simpl.
  - now rewrite app_nil_r.
  - simpl in Hr.
    destruct (set_forEach (purge_body sid roomId) members (members, out))
      as [members1 out1] eqn:E.
    assert (E1 : members1 = others sid members).
    { change members1 with (fst (members1, out1)). rewrite <- E.
      destruct (purge_body_spec sid roomId) as [A B].
      apply (@set_forEach_exact sid _ A B members [] (members, out)); auto. }
    assert (E2 : out1 = out ++ repeat (user_left roomId sid)
                                      (length (own_entries sid members))).
    { change out1 with (snd (members1, out1)). rewrite <- E.
      apply (purge_emits sid roomId members [] (members, out)); auto. }
    rewrite IH. subst. now rewrite <- app_assoc.
Qed.

(** *** Distinct participant objects in every reachable state *)

Lemma room_ok_mono (n n' : nat) (room : list Member) :
  n <= n' -> room_ok n room -> room_ok n' room.
Proof.
  intros L [ND F]. split; [assumption|].
  eapply Forall_impl; [|exact F]. simpl. intros. lia.
Qed.

Lemma room_ok_others (n : nat) (sid : SocketId) (room : list Member) :
  room_ok n room -> room_ok n (others sid room).
Proof.
  intros [ND F]. split.
  - now apply others_distinct.
  - apply Forall_forall. intros x Hx. apply filter_In in Hx.
    rewrite Forall_forall in F. now apply F.
Qed.

Lemma set_add_fresh (n : nat) (sid : SocketId) (ui : JsVal) (room : list Member) :
  Forall (fun m => m_ref m < n) room ->
  set_add (mkMember n sid ui) room = room ++ [mkMember n sid ui].
Proof.
  intro F. unfold set_add, set_has.
  assert (X : existsb (fun x => Nat.eqb (m_ref x) (m_ref (mkMember n sid ui))) room
              = false).
  { apply not_true_is_false. intro T. apply existsb_exists in T.
    destruct T as [x [Hx Ex]]. rewrite Forall_forall in F.
    specialize (F x Hx). apply Nat.eqb_eq in Ex. simpl in Ex. lia. }
  now rewrite X.
Qed.

Lemma room_ok_add (n : nat) (sid : SocketId) (ui : JsVal) (room : list Member) :
  room_ok n room -> room_ok (S n) (set_add (mkMember n sid ui) room).
Proof.
  intros [ND F]. rewrite (set_add_fresh sid ui F). split.
  - rewrite map_app. simpl. apply NoDup_app; [assumption|repeat constructor; auto|].
    intros x Hx [E|[]]. subst x. apply in_map_iff in Hx.
    destruct Hx as [y [E Hy]]. rewrite Forall_forall in F. specialize (F y Hy). lia.
  - apply Forall_app. split.
    + eapply Forall_impl; [|exact F]. simpl. intros. lia.
    + constructor; [simpl; lia|constructor].
Qed.

Lemma room_of_ok (st : State) (roomId : Prim) :
  rooms_wf st -> room_ok (nextRef st) (room_of roomId (rooms st)).
Proof.
  unfold rooms_wf, room_of. intro W.
  destruct (map_get prim_eqb roomId (rooms st)) as [s|] eqn:E.
  - apply (map_get_In prim_eqb prim_eqb_eq) in E.
    rewrite Forall_forall in W. apply (W _ E).
  - split; constructor.
Qed.

Lemma Forall_map_set (P : list Member -> Prop) (k : Prim) (v : list Member)
    (m : JsMap Prim (list Member)) :
  P v -> Forall (fun e => P (snd e)) m ->
  Forall (fun e => P (snd e)) (map_set prim_eqb k v m).
Proof.
  intros Hv Hm. apply Forall_forall. intros [k' v'] Hin.
  apply (map_set_In prim_eqb prim_eqb_eq) in Hin. destruct Hin as [[_ ->]|Hin].
  - exact Hv.
  - rewrite Forall_forall in Hm. apply (Hm _ Hin).
Qed.

Lemma join_rooms_wf (st : State) (sid : SocketId) (roomId : Prim) (ui : JsVal) :
  rooms_wf st -> rooms_wf (fst (Validated.join_room st sid roomId ui)).
Proof.
  intro W. pose proof (room_of_ok roomId W) as R. revert R.
  unfold rooms_wf, Validated.join_room, room_of, map_has in *. simpl.
  assert (M : Forall (fun e => room_ok (S (nextRef st)) (snd e)) (rooms st)).
  { eapply Forall_impl; [|exact W]. intros e. apply room_ok_mono. lia. }
  destruct (map_get prim_eqb roomId (rooms st)) as [room|] eqn:E; simpl; intro R.
  - rewrite E. apply Forall_map_set; [now apply room_ok_add|exact M].
  - rewrite (map_get_set_eq prim_eqb prim_eqb_eq).
    apply Forall_map_set; [now apply room_ok_add|].
    apply Forall_map_set; [split; constructor|exact M].
Qed.

Lemma leave_rooms_eq (st : State) (sid : SocketId) (roomId : Prim) :
  Index.leave_room st sid roomId = Validated.leave_room st sid roomId.
Proof.
  unfold Index.leave_room, Validated.leave_room, map_has, room_of. simpl.
  now destruct (map_get prim_eqb roomId (rooms st)).
Qed.

Lemma leave_room_of (st : State) (sid : SocketId) (roomId r : Prim) :
  rooms_wf st ->
  room_of r (rooms (fst (Validated.leave_room st sid roomId))) =
  if prim_eqb roomId r then others sid (room_of r (rooms st))
  else room_of r (rooms st).
Proof.
  intro W. pose proof (room_of_ok roomId W) as [ND _]. revert ND.
  unfold Validated.leave_room, room_of. simpl.
  destruct (map_get prim_eqb roomId (rooms st)) as [room|] eqn:E; simpl; intro ND.
  - destruct (leave_body_spec sid) as [A B].
    rewrite (@set_forEach_exact sid _ A B room [] (room, [])) by auto. simpl.
    destruct (prim_eqb roomId r) eqn:Er.
    + apply prim_eqb_eq in Er. subst r.
      now rewrite (map_get_set_eq prim_eqb prim_eqb_eq), E.
    + apply prim_eqb_neq in Er.
      now rewrite (map_get_set_neq prim_eqb prim_eqb_eq) by congruence.
  - destruct (prim_eqb roomId r) eqn:Er; [|reflexivity].
    apply prim_eqb_eq in Er. subst r. now rewrite E.
Qed.

Lemma leave_rooms_wf (st : State) (sid : SocketId) (roomId : Prim) :
  rooms_wf st -> rooms_wf (fst (Validated.leave_room st sid roomId)).
Proof.
  intro W. pose proof (room_of_ok roomId W) as R. revert R.
  unfold rooms_wf, Validated.leave_room, room_of in *. simpl.
  destruct (map_get prim_eqb roomId (rooms st)) as [room|] eqn:E; simpl; [|auto].
  intro R. apply Forall_map_set; [|exact W].
  destruct (leave_body_spec sid) as [A B].
  rewrite (@set_forEach_exact sid _ A B room [] (room, [])); [|reflexivity|apply R].
  now apply room_ok_others.
Qed.

Lemma rooms_wf_NoDup (st : State) :
  rooms_wf st -> Forall (fun e => NoDup (map m_ref (snd e))) (rooms st).
Proof. unfold rooms_wf. intro W. eapply Forall_impl; [|exact W]. now intros e [ND _]. Qed.

Lemma disconnect_rooms (st : State) (sid : SocketId) :
  rooms (fst (Index.disconnect st sid)) = fst (purge_rooms sid (rooms st) []) /\
  nextRef (fst (Index.disconnect st sid)) = nextRef st /\
  rooms (fst (Validated.disconnect st sid)) = fst (purge_rooms sid (rooms st) []) /\
  nextRef (fst (Validated.disconnect st sid)) = nextRef st.
Proof.
  unfold Index.disconnect, Validated.disconnect.
  destruct (purge_rooms sid (rooms st) []) as [rooms1 out].
  now destruct (prim_truthy _).
Qed.

Lemma purge_rooms_wf (n : nat) (sid : SocketId) (rs : JsMap Prim (list Member)) :
  Forall (fun e => room_ok n (snd e)) rs ->
  Forall (fun e => room_ok n (snd e)) (fst (purge_rooms sid rs [])).
Proof.
  intro W. rewrite purge_rooms_exact.
  - simpl. apply Forall_forall. intros e Hin. apply in_map_iff in Hin.
    destruct Hin as [e0 [<- Hin]]. simpl. apply room_ok_others.
    rewrite Forall_forall in W. now apply W.
  - eapply Forall_impl; [|exact W]. now intros e [ND _].
Qed.

Lemma Validated_step_rooms_wf (st : State) (sid : SocketId) (msg : Msg) :
  rooms_wf st -> rooms_wf (fst (Validated.step st sid msg)).
Proof.
  intros W. destruct msg; simpl; try exact W.
  - now rewrite Validated_call_user_state.
  - now rewrite Validated_answer_call_state.
  - now apply join_rooms_wf.
  - now apply leave_rooms_wf.
  - destruct (disconnect_rooms (set_sio st (sio_cleanup sid (sio st))) sid)
      as (_ & _ & R & N).
    unfold rooms_wf. rewrite R, N. simpl. now apply purge_rooms_wf.
Qed.

Lemma Index_step_rooms_wf (st st' : State) (sid : SocketId) (msg : Msg)
    (out : list Emit) :
  rooms_wf st -> Index.step st sid msg = Some (st', out) -> rooms_wf st'.
Proof.
  intros W H. destruct msg; simpl in H;
    try (apply some_fst in H; subst; exact W).
  - apply Index_call_user_Some in H. now subst.
  - apply Index_answer_call_Some in H. now subst.
  - apply some_fst in H. subst. unfold Index.end_call.
    now destruct (prim_truthy targetSocketId).
  - apply some_fst in H. subst. unfold Index.ice_candidate.
    now destruct (prim_truthy targetSocketId).
  - rewrite Index_join_room_eq in H.
    destruct (field_loggable userInfo "username"); [|discriminate].
    apply some_fst in H. subst. now apply join_rooms_wf.
  - apply some_fst in H. subst. rewrite leave_rooms_eq. now apply leave_rooms_wf.
  - apply some_fst in H. subst.
    destruct (disconnect_rooms (set_sio st (sio_cleanup sid (sio st))) sid)
      as (R & N & _ & _).
    unfold rooms_wf. rewrite R, N. simpl. now apply purge_rooms_wf.
Qed.

Lemma Validated_run_rooms_wf (evs : list (SocketId * Msg)) :
  rooms_wf (Validated.run init evs).
Proof.
  unfold Validated.run. assert (W : rooms_wf init) by constructor. revert W.
  generalize init. induction evs as [|ev evs IH]; intros st W; simpl.
  - assumption.
  - apply IH. now apply Validated_step_rooms_wf.
Qed.

Lemma Index_run_rooms_wf (evs : list (SocketId * Msg)) :
  rooms_wf (Index.run init evs).
Proof.
  unfold Index.run. assert (W : rooms_wf init) by constructor. revert W.
  generalize init. induction evs as [|ev evs IH]; intros st W; simpl.
  - assumption.
  - apply IH. destruct (Index.step st (fst ev) (snd ev)) as [[st' out]|] eqn:E.
    + eapply Index_step_rooms_wf; eauto.
    + assumption.
Qed.

(** *** Joining *)







(** *** Leaving *)

(** In every reachable state a [leave-room] removes from the room the
    participant objects of the leaving connection and nothing else:
    the objects of the other connections stay, in order, the other
    rooms and the registry are untouched. *)
Theorem leave_room_exact (evs : list (SocketId * Msg)) (sid : SocketId)
    (roomId r : Prim) :
  (let st := Index.run init evs in
   let st' := fst (Index.leave_room st sid roomId) in
   room_of r (rooms st') =
     (if prim_eqb roomId r then others sid (room_of r (rooms st))
      else room_of r (rooms st)) /\
   users st' = users st /\ socketToUser st' = socketToUser st) /\
  (let st := Validated.run init evs in
   let st' := fst (Validated.leave_room st sid roomId) in
   room_of r (rooms st') =
     (if prim_eqb roomId r then others sid (room_of r (rooms st))
      else room_of r (rooms st)) /\
   users st' = users st /\ socketToUser st' = socketToUser st).
Proof.
  assert (U : forall st,
    users (fst (Validated.leave_room st sid roomId)) = users st /\
    socketToUser (fst (Validated.leave_room st sid roomId)) = socketToUser st).
  { intro st. unfold Validated.leave_room. simpl.
    now destruct (map_get prim_eqb roomId (rooms st)). }
  split; simpl.
  - rewrite leave_rooms_eq. split; [|apply U].
    apply leave_room_of, Index_run_rooms_wf.
  - split; [|apply U]. apply leave_room_of, Validated_run_rooms_wf.
Qed.

(** *** Disconnecting *)

(** In every reachable state a disconnect removes the participant
    objects of the connection from every room and keeps all others;
    it emits one [user-left] per removed object, room by room, and
    then one [users-updated] with the snapshot of the new state. *)
Theorem disconnect_rooms_exact (evs : list (SocketId * Msg)) (sid : SocketId) :
  (let st := Index.run init evs in
   let r := Index.disconnect st sid in
   rooms (fst r) = map (fun e => (fst e, others sid (snd e))) (rooms st) /\
   snd r = flat_map (fun e => repeat (user_left (fst e) sid)
                                     (length (own_entries sid (snd e)))) (rooms st)
           ++ [users_updated (snapshot (fst r))]) /\
  (let st := Validated.run init evs in
   let r := Validated.disconnect st sid in
   rooms (fst r) = map (fun e => (fst e, others sid (snd e))) (rooms st) /\
   snd r = flat_map (fun e => repeat (user_left (fst e) sid)
                                     (length (own_entries sid (snd e)))) (rooms st)
           ++ [users_updated (snapshot (fst r))]).
Proof.
  split; simpl; unfold Index.disconnect, Validated.disconnect.
  - rewrite (purge_rooms_exact sid []
               (rooms_wf_NoDup (Index_run_rooms_wf evs))). simpl. now split.
  - rewrite (purge_rooms_exact sid []
               (rooms_wf_NoDup (Validated_run_rooms_wf evs))).
    now destruct (prim_truthy _).
Qed.

(** *** Rooms are never destroyed *)

Lemma purge_rooms_keys (sid : SocketId) (rs : JsMap Prim (list Member))
    (out : list Emit) :
  map_keys (fst (purge_rooms sid rs out)) = map_keys rs.
Proof.
  revert out. induction rs as [|[roomId members] rs IH]; intro out; simpl.
  - reflexivity.
  - destruct (set_forEach (purge_body sid roomId) members (members, out))
      as [members1 out1].
    specialize (IH out1). destruct (purge_rooms sid rs out1). simpl in *.
    now rewrite IH.
Qed.

Lemma Validated_step_keeps_rooms (st : State) (sid : SocketId) (msg : Msg) (r : Prim) :
  In r (map_keys (rooms st)) -> In r (map_keys (rooms (fst (Validated.step st sid msg)))).
Proof.
  intro H. destruct msg; simpl; try exact H.
  - now rewrite Validated_call_user_state.
  - now rewrite Validated_answer_call_state.
  - apply (map_set_In_keys prim_eqb prim_eqb_eq). right.
    destruct (negb (map_has prim_eqb roomId (rooms st))); [|assumption].
    apply (map_set_In_keys prim_eqb prim_eqb_eq). now right.
  - unfold Validated.leave_room. simpl.
    destruct (map_get prim_eqb roomId (rooms st)); simpl; [|assumption].
    apply (map_set_In_keys prim_eqb prim_eqb_eq). now right.
  - destruct (disconnect_rooms (set_sio st (sio_cleanup sid (sio st))) sid)
      as (_ & _ & R & _).
    rewrite R. simpl. now rewrite purge_rooms_keys.
Qed.

Lemma Index_step_keeps_rooms (st st' : State) (sid : SocketId) (msg : Msg)
    (out : list Emit) (r : Prim) :
  Index.step st sid msg = Some (st', out) ->
  In r (map_keys (rooms st)) -> In r (map_keys (rooms st')).
Proof.
  intros H HI. destruct msg; simpl in H;
    try (apply some_fst in H; subst; exact HI).
  - apply Index_call_user_Some in H. now subst.
  - apply Index_answer_call_Some in H. now subst.
  - apply some_fst in H. subst. unfold Index.end_call.
    now destruct (prim_truthy targetSocketId).
  - apply some_fst in H. subst. unfold Index.ice_candidate.
    now destruct (prim_truthy targetSocketId).
  - rewrite Index_join_room_eq in H.
    destruct (field_loggable userInfo "username"); [|discriminate].
    apply some_fst in H. subst.
    apply (Validated_step_keeps_rooms st sid (JoinRoom roomId userInfo) r HI).
  - apply some_fst in H. subst. rewrite leave_rooms_eq.
    apply (Validated_step_keeps_rooms st sid (LeaveRoom roomId) r HI).
  - apply some_fst in H. subst.
    destruct (disconnect_rooms (set_sio st (sio_cleanup sid (sio st))) sid)
      as (R & _ & _ & _).
    rewrite R. simpl. now rewrite purge_rooms_keys.
Qed.

(** No handler deletes a room: the rooms that exist at some point of a
    run exist, possibly empty, after every continuation of the run. *)
Theorem rooms_never_destroyed (evs more : list (SocketId * Msg)) :
  incl (map_keys (rooms (Index.run init evs)))
       (map_keys (rooms (Index.run init (evs ++ more)))) /\
  incl (map_keys (rooms (Validated.run init evs)))
       (map_keys (rooms (Validated.run init (evs ++ more)))).
Proof.
  unfold Index.run, Validated.run, incl. rewrite !fold_left_app. split; intro r.
  - generalize (fold_left (fun s ev =>
        match Index.step s (fst ev) (snd ev) with
        | Some (s', _) => s' | None => s end) evs init).
    induction more as [|ev more IH]; intros st H; simpl; [assumption|].
    apply IH. destruct (Index.step st (fst ev) (snd ev)) as [[st' out]|] eqn:E.
    + eapply Index_step_keeps_rooms; eauto.
    + assumption.
  - generalize (fold_left (fun s ev => fst (Validated.step s (fst ev) (snd ev)))
                          evs init).
    induction more as [|ev more IH]; intros st H; simpl; [assumption|].
    apply IH. now apply Validated_step_keeps_rooms.
Qed.

(** ** The relays *)


(** A handler run that throws has emitted nothing: every log line that
    can throw comes before every emit.  In [src/index.js] the throw
    comes before any effect at all, except in [register-user], which
    throws after the registry is written; in the validated variant a
    throwing run leaves the rooms as they are. *)
Theorem throwing_handler_emits_nothing (st : State) (sid : SocketId) (msg : Msg) :
  (Index.step st sid msg = None <->
   Index.throws st sid msg = true /\ forall u n, msg <> RegisterUser u n) /\
  (if Index.throws st sid msg
   then match Index.step st sid msg with
        | Some (_, out) => out = []
        | None => True
        end
   else Index.step st sid msg <> None) /\
  (if Validated.throws st sid msg
   then snd (Validated.step st sid msg) = [] /\
        rooms (fst (Validated.step st sid msg)) = rooms st
   else True).
Proof.
  destruct msg as [|u n|targetUserId callerInfo offer|c a userInfo| | | |r userInfo| | | | |];
    simpl;
    try (split; [split; [discriminate|intros [H _]; discriminate]
                |split; [discriminate|exact I]]).
  - (* register-user *)
    split; [split; [discriminate|intros [_ H]; now contradiction (H u n)]|].
    destruct (stringable n); simpl; repeat split; discriminate.
  - (* call-user *)
    unfold Index.call_user, Validated.call_user.
    destruct (caller_loggable callerInfo) eqn:C; simpl.
    + destruct (map_get prim_eqb targetUserId (users st)) as [tu|]; simpl.
      * destruct (stringable (username tu)); simpl.
        -- split; [split; [discriminate|intros [H _]; discriminate]|].
           split; [discriminate|].
           now destruct (Validated.caller_invalid callerInfo).
        -- split; [split; [intros _; split; [reflexivity|discriminate]|reflexivity]|].
           split; [exact I|].
           now destruct (Validated.caller_invalid callerInfo).
      * split; [split; [discriminate|intros [H _]; discriminate]|].
        split; [discriminate|].
        now destruct (Validated.caller_invalid callerInfo).
    + split; [split; [intros _; split; [reflexivity|discriminate]|reflexivity]|].
      split; [exact I|].
      destruct (Validated.caller_invalid callerInfo); simpl; [exact I|].
      now destruct (map_get prim_eqb targetUserId (users st)).
  - (* answer-call *)
    unfold Index.answer_call, Validated.answer_call.
    split; [|split].
    + destruct (field_loggable userInfo "username"); simpl;
        split; try discriminate; try (intros [H _]; discriminate);
        intros; try split; try reflexivity; discriminate.
    + destruct (field_loggable userInfo "username"); simpl; [discriminate|exact I].
    + now destruct (Validated.optional_loggable userInfo "username").
  - (* join-room *)
    rewrite Index_join_room_eq.
    split; [|split; [|exact I]].
    + destruct (field_loggable userInfo "username"); simpl;
        split; try discriminate; try (intros [H _]; discriminate);
        intros; try split; try reflexivity; discriminate.
    + destruct (field_loggable userInfo "username"); simpl; [discriminate|exact I].
Qed.

(** Relaying keeps no call state and never broadcasts: a relay message
    leaves the server state as it is, and every event it emits is
    addressed to the sender's socket or to one named room; where the
    handler of [src/index.js] returns nothing, it has thrown. *)
Theorem relays_keep_state (st : State) (sid : SocketId) (msg : Msg) :
  is_relay msg = true ->
  match Index.step st sid msg with
  | Some (st', out) => st' = st /\ forallb point_to_point out = true
  | None => Index.throws st sid msg = true
  end /\
  fst (Validated.step st sid msg) = st /\
  forallb point_to_point (snd (Validated.step st sid msg)) = true.
Proof.
  intro R. destruct msg; try discriminate; simpl.
  - unfold Index.call_user, Validated.call_user.
    destruct (caller_loggable callerInfo), (Validated.caller_invalid callerInfo),
      (map_get prim_eqb targetUserId (users st)) as [tu|]; simpl;
      try destruct (stringable (username tu)); simpl; repeat split.
  - unfold Index.answer_call, Validated.answer_call.
    destruct (field_loggable userInfo "username"),
      (Validated.optional_loggable userInfo "username"); simpl; repeat split.
  - repeat split.
  - unfold Index.end_call. destruct (prim_truthy targetSocketId); repeat split.
  - unfold Index.ice_candidate. destruct (prim_truthy targetSocketId); repeat split.
  - repeat split.
  - repeat split.
  - repeat split.
Qed.

Lemma relays_keep_state_witness :
  match Index.step init "c1" (IceCandidate (PStr "c2") (JStr "cand")) with
  | Some (st', out) => st' = init /\ forallb point_to_point out = true
  | None => Index.throws init "c1" (IceCandidate (PStr "c2") (JStr "cand")) = true
  end /\
  fst (Validated.step init "c1" (IceCandidate (PStr "c2") (JStr "cand"))) = init /\
  forallb point_to_point
    (snd (Validated.step init "c1" (IceCandidate (PStr "c2") (JStr "cand")))) = true.
Proof.
  apply (@relays_keep_state init "c1" (IceCandidate (PStr "c2") (JStr "cand"))).
  reflexivity.
Defined.



(** *** Where the two [Map]-backed variants agree *)




(** ** Stored usernames in a live server *)

Lemma names_convert_set (st : State) (u : Prim) (row : User)
    (m : JsMap Prim User) :
  stringable (username row) = true ->
  Forall (fun r => stringable (username r) = true) (map_values m) ->
  Forall (fun r => stringable (username r) = true)
         (map_values (map_set prim_eqb u row m)).
Proof.
  intros Hr Hm. apply Forall_forall. intros r Hin. unfold map_values in *.
  apply in_map_iff in Hin. destruct Hin as [[k v] [E Hin]]. simpl in E. subst v.
  apply (map_set_In prim_eqb prim_eqb_eq) in Hin. destruct Hin as [[_ ->]|Hin].
  - exact Hr.
  - rewrite Forall_forall in Hm. apply Hm.
    change r with (snd (k, r)). now apply in_map.
Qed.

Lemma names_convert_delete (u : Prim) (m : JsMap Prim User) :
  Forall (fun r => stringable (username r) = true) (map_values m) ->
  Forall (fun r => stringable (username r) = true)
         (map_values (map_delete prim_eqb u m)).
Proof.
  intro Hm. apply Forall_forall. intros r Hin. unfold map_values in *.
  apply in_map_iff in Hin. destruct Hin as [[k v] [E Hin]]. simpl in E. subst v.
  apply (map_delete_In prim_eqb prim_eqb_eq) in Hin. destruct Hin as [Hin _].
  rewrite Forall_forall in Hm. apply Hm.
  change r with (snd (k, r)). now apply in_map.
Qed.

Lemma Index_disconnect_names (st : State) (sid : SocketId) :
  names_convert st -> names_convert (fst (Index.disconnect st sid)).
Proof.
  unfold names_convert, snapshot, Index.disconnect. intro H.
  destruct (purge_rooms sid (rooms st) []) as [rooms1 out]. simpl.
  destruct (if prim_truthy _ then _ else None); [|assumption].
  now apply names_convert_delete.
Qed.

Lemma Validated_disconnect_names (st : State) (sid : SocketId) :
  names_convert st -> names_convert (fst (Validated.disconnect st sid)).
Proof.
  unfold names_convert, snapshot, Validated.disconnect. intro H.
  destruct (purge_rooms sid (rooms st) []) as [rooms1 out].
  destruct (prim_truthy _); simpl; [|assumption].
  now apply names_convert_delete.
Qed.

Lemma Validated_step_names (st : State) (sid : SocketId) (msg : Msg) :
  Validated.throws st sid msg = false ->
  names_convert st -> names_convert (fst (Validated.step st sid msg)).
Proof.
  intros T H. destruct msg; simpl in *; try exact H.
  - apply negb_false_iff in T. unfold names_convert, snapshot in *. simpl.
    now apply names_convert_set.
  - now rewrite Validated_call_user_state.
  - now rewrite Validated_answer_call_state.
  - unfold Validated.leave_room. simpl.
    destruct (map_get prim_eqb roomId (rooms st)); exact H.
  - apply Validated_disconnect_names. exact H.
Qed.

Lemma Index_step_names (st : State) (sid : SocketId) (msg : Msg) :
  Index.throws st sid msg = false ->
  names_convert st -> names_convert (Index.run st [(sid, msg)]).
Proof.
  intros T H. unfold Index.run. simpl.
  destruct (Index.step st sid msg) as [[st' out]|] eqn:E; [|assumption].
  destruct msg; simpl in E.
  - apply some_fst in E. now subst.
  - apply some_fst in E. subst. simpl in T. apply negb_false_iff in T.
    unfold names_convert, snapshot in *. simpl. now apply names_convert_set.
  - apply Index_call_user_Some in E. now subst.
  - apply Index_answer_call_Some in E. now subst.
  - apply some_fst in E. now subst.
  - apply some_fst in E. subst. unfold Index.end_call.
    now destruct (prim_truthy targetSocketId).
  - apply some_fst in E. subst. unfold Index.ice_candidate.
    now destruct (prim_truthy targetSocketId).
  - rewrite Index_join_room_eq in E.
    destruct (field_loggable userInfo "username"); [|discriminate].
    apply some_fst in E. now subst.
  - apply some_fst in E. subst. unfold Index.leave_room.
    now destruct (map_has prim_eqb roomId _).
  - apply some_fst in E. now subst.
  - apply some_fst in E. now subst.
  - apply some_fst in E. now subst.
  - apply some_fst in E. subst. apply Index_disconnect_names. exact H.
Qed.

(** As long as no handler has thrown, every username in the registry
    converts to a string, so that the log lines that convert a stored
    username (in the disconnect handlers and on the found path of
    [call-user]) cannot be the first to throw. *)
Theorem live_names_convert (evs : list (SocketId * Msg)) :
  (if index_alive init evs then names_convert (Index.run init evs) else True) /\
  (if validated_alive init evs then names_convert (Validated.run init evs) else True).
Proof.
  assert (P0 : names_convert init) by constructor. revert P0. generalize init.
  induction evs as [|[sid msg] evs IH]; intros st P; simpl.
  - now split.
  - split.
    + destruct (Index.throws st sid msg) eqn:T; simpl; [exact I|].
      pose proof (Index_step_names sid msg T P) as P1.
      destruct (IH _ P1) as [A _].
      unfold Index.run in *. simpl in *. exact A.
    + destruct (Validated.throws st sid msg) eqn:T; simpl; [exact I|].
      pose proof (Validated_step_names sid msg T P) as P1.
      destruct (IH _ P1) as [_ B].
      unfold Validated.run in *. simpl in *. exact B.
Qed.
